(** * nanda agent: rate limiter, command dispatcher, tools and note store

    A shallow embedding of [agent.py].  The module-level globals of the
    script ([mem], [_last_bucket], [_msgs_in_bucket]) and the file behind
    [MEM_PATH] are threaded explicitly through a state-and-exception monad;
    the wall clock, the Python expression evaluator behind [eval] and the
    [json] codec are the collaborators of the script and are taken as
    inputs. *)

From Stdlib Require Import ZArith QArith Qround List Ascii String DecimalString Lia Bool.
From stdpp Require Import gmap.
Import ListNotations.

Local Open Scope Z_scope.
Local Open Scope list_scope.

(** ** Text

    A Python [str] is a sequence of Unicode code points. *)

Abbreviation char := N (only parsing).
Abbreviation str := (list N) (only parsing).

(** String literals of the source whose characters are all ASCII. *)
Definition lit (s : string) : str := List.map N_of_ascii (list_ascii_of_string s).

(** ** Rate limiter *)

Definition RATE_LIMIT_PER_MIN : Z := 60.

Record rate_state := {
  _last_bucket : Z;
  _msgs_in_bucket : Z
}.

(** [int(time.time() // 60)] for a clock reading of [t] seconds. *)
Definition bucket_of (t : Q) : Z := Qfloor (t / 60).

(** [ratelimit_ok()], given the reading [now] of [time.time()]. *)
Definition ratelimit_ok (now : Q) (s : rate_state) : bool * rate_state :=
  let now_bucket := bucket_of now in
  let s1 :=
    if negb (now_bucket =? _last_bucket s)
    then {| _last_bucket := now_bucket; _msgs_in_bucket := 0 |}
    else s in
  if _msgs_in_bucket s1 >=? RATE_LIMIT_PER_MIN
  then (false, s1)
  else (true, {| _last_bucket := _last_bucket s1;
                 _msgs_in_bucket := _msgs_in_bucket s1 + 1 |}).

(** The state right after the module is imported at clock reading [t0]. *)
Definition rate_init (t0 : Q) : rate_state :=
  {| _last_bucket := bucket_of t0; _msgs_in_bucket := 0 |}.

(** Successive calls at the clock readings [ts]: the answers, in call
    order, and the final state. *)
Fixpoint ratelimit_calls (ts : list Q) (s : rate_state) : list bool * rate_state :=
  match ts with
  | [] => ([], s)
  | t :: ts' =>
      let '(b, s1) := ratelimit_ok t s in
      let '(bs, s2) := ratelimit_calls ts' s1 in
      (b :: bs, s2)
  end.

(** States the limiter can be in: the initial one and whatever calls make
    of it. *)
Inductive rate_reachable : rate_state -> Prop :=
| reach_init t0 : rate_reachable (rate_init t0)
| reach_call now s : rate_reachable s -> rate_reachable (snd (ratelimit_ok now s)).

(** ** Python string primitives *)

Local Open Scope N_scope.

(** One-character test behind [str.strip()] and the regex class [\s]
    (CPython's [Py_UNICODE_ISSPACE]). *)
Definition is_space (c : char) : bool :=
  ((9 <=? c) && (c <=? 13)) || ((28 <=? c) && (c <=? 32))
  || (c =? 133) || (c =? 160) || (c =? 5760)
  || ((8192 <=? c) && (c <=? 8202))
  || (c =? 8232) || (c =? 8233) || (c =? 8239) || (c =? 8287) || (c =? 12288).

(** *** Case tables

    The case data of Unicode 14.0, as CPython 3.11 carries it. *)

(** The simple lower-case mapping above Latin-1, in runs: the first and
    the last code point of the run, whether only every second code point of
    the run is mapped, and the image of the first. *)
Definition LOWER_RUNS : list (N * N * bool * N) :=
  [(256, 302, true, 257); (304, 304, false, 105); (306, 310, true, 307);
   (313, 327, true, 314); (330, 374, true, 331); (376, 376, false, 255);
   (377, 381, true, 378); (385, 385, false, 595); (386, 388, true, 387);
   (390, 390, false, 596); (391, 391, false, 392); (393, 394, false, 598);
   (395, 395, false, 396); (398, 398, false, 477); (399, 399, false, 601);
   (400, 400, false, 603); (401, 401, false, 402); (403, 403, false, 608);
   (404, 404, false, 611); (406, 406, false, 617); (407, 407, false, 616);
   (408, 408, false, 409); (412, 412, false, 623); (413, 413, false, 626);
   (415, 415, false, 629); (416, 420, true, 417); (422, 422, false, 640);
   (423, 423, false, 424); (425, 425, false, 643); (428, 428, false, 429);
   (430, 430, false, 648); (431, 431, false, 432); (433, 434, false, 650);
   (435, 437, true, 436); (439, 439, false, 658); (440, 440, false, 441);
   (444, 444, false, 445); (452, 452, false, 454); (453, 453, false, 454);
   (455, 455, false, 457); (456, 456, false, 457); (458, 458, false, 460);
   (459, 475, true, 460); (478, 494, true, 479); (497, 497, false, 499);
   (498, 500, true, 499); (502, 502, false, 405); (503, 503, false, 447);
   (504, 542, true, 505); (544, 544, false, 414); (546, 562, true, 547);
   (570, 570, false, 11365); (571, 571, false, 572); (573, 573, false, 410);
   (574, 574, false, 11366); (577, 577, false, 578); (579, 579, false, 384);
   (580, 580, false, 649); (581, 581, false, 652); (582, 590, true, 583);
   (880, 882, true, 881); (886, 886, false, 887); (895, 895, false, 1011);
   (902, 902, false, 940); (904, 906, false, 941); (908, 908, false, 972);
   (910, 911, false, 973); (913, 929, false, 945); (931, 939, false, 963);
   (975, 975, false, 983); (984, 1006, true, 985); (1012, 1012, false, 952);
   (1015, 1015, false, 1016); (1017, 1017, false, 1010); (1018, 1018, false, 1019);
   (1021, 1023, false, 891); (1024, 1039, false, 1104); (1040, 1071, false, 1072);
   (1120, 1152, true, 1121); (1162, 1214, true, 1163); (1216, 1216, false, 1231);
   (1217, 1229, true, 1218); (1232, 1326, true, 1233); (1329, 1366, false, 1377);
   (4256, 4293, false, 11520); (4295, 4295, false, 11559); (4301, 4301, false, 11565);
   (5024, 5103, false, 43888); (5104, 5109, false, 5112); (7312, 7354, false, 4304);
   (7357, 7359, false, 4349); (7680, 7828, true, 7681); (7838, 7838, false, 223);
   (7840, 7934, true, 7841); (7944, 7951, false, 7936); (7960, 7965, false, 7952);
   (7976, 7983, false, 7968); (7992, 7999, false, 7984); (8008, 8013, false, 8000);
   (8025, 8031, true, 8017); (8040, 8047, false, 8032); (8072, 8079, false, 8064);
   (8088, 8095, false, 8080); (8104, 8111, false, 8096); (8120, 8121, false, 8112);
   (8122, 8123, false, 8048); (8124, 8124, false, 8115); (8136, 8139, false, 8050);
   (8140, 8140, false, 8131); (8152, 8153, false, 8144); (8154, 8155, false, 8054);
   (8168, 8169, false, 8160); (8170, 8171, false, 8058); (8172, 8172, false, 8165);
   (8184, 8185, false, 8056); (8186, 8187, false, 8060); (8188, 8188, false, 8179);
   (8486, 8486, false, 969); (8490, 8490, false, 107); (8491, 8491, false, 229);
   (8498, 8498, false, 8526); (8544, 8559, false, 8560); (8579, 8579, false, 8580);
   (9398, 9423, false, 9424); (11264, 11311, false, 11312); (11360, 11360, false, 11361);
   (11362, 11362, false, 619); (11363, 11363, false, 7549); (11364, 11364, false, 637);
   (11367, 11371, true, 11368); (11373, 11373, false, 593); (11374, 11374, false, 625);
   (11375, 11375, false, 592); (11376, 11376, false, 594); (11378, 11378, false, 11379);
   (11381, 11381, false, 11382); (11390, 11391, false, 575); (11392, 11490, true, 11393);
   (11499, 11501, true, 11500); (11506, 11506, false, 11507); (42560, 42604, true, 42561);
   (42624, 42650, true, 42625); (42786, 42798, true, 42787); (42802, 42862, true, 42803);
   (42873, 42875, true, 42874); (42877, 42877, false, 7545); (42878, 42886, true, 42879);
   (42891, 42891, false, 42892); (42893, 42893, false, 613); (42896, 42898, true, 42897);
   (42902, 42920, true, 42903); (42922, 42922, false, 614); (42923, 42923, false, 604);
   (42924, 42924, false, 609); (42925, 42925, false, 620); (42926, 42926, false, 618);
   (42928, 42928, false, 670); (42929, 42929, false, 647); (42930, 42930, false, 669);
   (42931, 42931, false, 43859); (42932, 42946, true, 42933); (42948, 42948, false, 42900);
   (42949, 42949, false, 642); (42950, 42950, false, 7566); (42951, 42953, true, 42952);
   (42960, 42960, false, 42961); (42966, 42968, true, 42967); (42997, 42997, false, 42998);
   (65313, 65338, false, 65345); (66560, 66599, false, 66600); (66736, 66771, false, 66776);
   (66928, 66938, false, 66967); (66940, 66954, false, 66979); (66956, 66962, false, 66995);
   (66964, 66965, false, 67003); (68736, 68786, false, 68800); (71840, 71871, false, 71872);
   (93760, 93791, false, 93792); (125184, 125217, false, 125218)].

(** The code points that are cased and not case-ignorable. *)
Definition CASED : list (N * N) :=
  [(65, 90); (97, 122); (170, 170); (181, 181); (186, 186);
   (192, 214); (216, 246); (248, 442); (444, 447); (452, 659);
   (661, 687); (880, 883); (886, 887); (891, 893); (895, 895);
   (902, 902); (904, 906); (908, 908); (910, 929); (931, 1013);
   (1015, 1153); (1162, 1327); (1329, 1366); (1376, 1416); (4256, 4293);
   (4295, 4295); (4301, 4301); (4304, 4346); (4349, 4351); (5024, 5109);
   (5112, 5117); (7296, 7304); (7312, 7354); (7357, 7359); (7424, 7467);
   (7531, 7543); (7545, 7578); (7680, 7957); (7960, 7965); (7968, 8005);
   (8008, 8013); (8016, 8023); (8025, 8025); (8027, 8027); (8029, 8029);
   (8031, 8061); (8064, 8116); (8118, 8124); (8126, 8126); (8130, 8132);
   (8134, 8140); (8144, 8147); (8150, 8155); (8160, 8172); (8178, 8180);
   (8182, 8188); (8450, 8450); (8455, 8455); (8458, 8467); (8469, 8469);
   (8473, 8477); (8484, 8484); (8486, 8486); (8488, 8488); (8490, 8493);
   (8495, 8500); (8505, 8505); (8508, 8511); (8517, 8521); (8526, 8526);
   (8544, 8575); (8579, 8580); (9398, 9449); (11264, 11387); (11390, 11492);
   (11499, 11502); (11506, 11507); (11520, 11557); (11559, 11559); (11565, 11565);
   (42560, 42605); (42624, 42651); (42786, 42863); (42865, 42887); (42891, 42894);
   (42896, 42954); (42960, 42961); (42963, 42963); (42965, 42969); (42997, 42998);
   (43002, 43002); (43824, 43866); (43872, 43880); (43888, 43967); (64256, 64262);
   (64275, 64279); (65313, 65338); (65345, 65370); (66560, 66639); (66736, 66771);
   (66776, 66811); (66928, 66938); (66940, 66954); (66956, 66962); (66964, 66965);
   (66967, 66977); (66979, 66993); (66995, 67001); (67003, 67004); (68736, 68786);
   (68800, 68850); (71840, 71903); (93760, 93823); (119808, 119892); (119894, 119964);
   (119966, 119967); (119970, 119970); (119973, 119974); (119977, 119980); (119982, 119993);
   (119995, 119995); (119997, 120003); (120005, 120069); (120071, 120074); (120077, 120084);
   (120086, 120092); (120094, 120121); (120123, 120126); (120128, 120132); (120134, 120134);
   (120138, 120144); (120146, 120485); (120488, 120512); (120514, 120538); (120540, 120570);
   (120572, 120596); (120598, 120628); (120630, 120654); (120656, 120686); (120688, 120712);
   (120714, 120744); (120746, 120770); (120772, 120779); (122624, 122633); (122635, 122654);
   (125184, 125251); (127280, 127305); (127312, 127337); (127344, 127369)].

(** The case-ignorable code points. *)
Definition CASE_IGNORABLE : list (N * N) :=
  [(39, 39); (46, 46); (58, 58); (94, 94); (96, 96);
   (168, 168); (173, 173); (175, 175); (180, 180); (183, 184);
   (688, 879); (884, 885); (890, 890); (900, 901); (903, 903);
   (1155, 1161); (1369, 1369); (1375, 1375); (1425, 1469); (1471, 1471);
   (1473, 1474); (1476, 1477); (1479, 1479); (1524, 1524); (1536, 1541);
   (1552, 1562); (1564, 1564); (1600, 1600); (1611, 1631); (1648, 1648);
   (1750, 1757); (1759, 1768); (1770, 1773); (1807, 1807); (1809, 1809);
   (1840, 1866); (1958, 1968); (2027, 2037); (2042, 2042); (2045, 2045);
   (2070, 2093); (2137, 2139); (2184, 2184); (2192, 2193); (2200, 2207);
   (2249, 2306); (2362, 2362); (2364, 2364); (2369, 2376); (2381, 2381);
   (2385, 2391); (2402, 2403); (2417, 2417); (2433, 2433); (2492, 2492);
   (2497, 2500); (2509, 2509); (2530, 2531); (2558, 2558); (2561, 2562);
   (2620, 2620); (2625, 2626); (2631, 2632); (2635, 2637); (2641, 2641);
   (2672, 2673); (2677, 2677); (2689, 2690); (2748, 2748); (2753, 2757);
   (2759, 2760); (2765, 2765); (2786, 2787); (2810, 2815); (2817, 2817);
   (2876, 2876); (2879, 2879); (2881, 2884); (2893, 2893); (2901, 2902);
   (2914, 2915); (2946, 2946); (3008, 3008); (3021, 3021); (3072, 3072);
   (3076, 3076); (3132, 3132); (3134, 3136); (3142, 3144); (3146, 3149);
   (3157, 3158); (3170, 3171); (3201, 3201); (3260, 3260); (3263, 3263);
   (3270, 3270); (3276, 3277); (3298, 3299); (3328, 3329); (3387, 3388);
   (3393, 3396); (3405, 3405); (3426, 3427); (3457, 3457); (3530, 3530);
   (3538, 3540); (3542, 3542); (3633, 3633); (3636, 3642); (3654, 3662);
   (3761, 3761); (3764, 3772); (3782, 3782); (3784, 3789); (3864, 3865);
   (3893, 3893); (3895, 3895); (3897, 3897); (3953, 3966); (3968, 3972);
   (3974, 3975); (3981, 3991); (3993, 4028); (4038, 4038); (4141, 4144);
   (4146, 4151); (4153, 4154); (4157, 4158); (4184, 4185); (4190, 4192);
   (4209, 4212); (4226, 4226); (4229, 4230); (4237, 4237); (4253, 4253);
   (4348, 4348); (4957, 4959); (5906, 5908); (5938, 5939); (5970, 5971);
   (6002, 6003); (6068, 6069); (6071, 6077); (6086, 6086); (6089, 6099);
   (6103, 6103); (6109, 6109); (6155, 6159); (6211, 6211); (6277, 6278);
   (6313, 6313); (6432, 6434); (6439, 6440); (6450, 6450); (6457, 6459);
   (6679, 6680); (6683, 6683); (6742, 6742); (6744, 6750); (6752, 6752);
   (6754, 6754); (6757, 6764); (6771, 6780); (6783, 6783); (6823, 6823);
   (6832, 6862); (6912, 6915); (6964, 6964); (6966, 6970); (6972, 6972);
   (6978, 6978); (7019, 7027); (7040, 7041); (7074, 7077); (7080, 7081);
   (7083, 7085); (7142, 7142); (7144, 7145); (7149, 7149); (7151, 7153);
   (7212, 7219); (7222, 7223); (7288, 7293); (7376, 7378); (7380, 7392);
   (7394, 7400); (7405, 7405); (7412, 7412); (7416, 7417); (7468, 7530);
   (7544, 7544); (7579, 7679); (8125, 8125); (8127, 8129); (8141, 8143);
   (8157, 8159); (8173, 8175); (8189, 8190); (8203, 8207); (8216, 8217);
   (8228, 8228); (8231, 8231); (8234, 8238); (8288, 8292); (8294, 8303);
   (8305, 8305); (8319, 8319); (8336, 8348); (8400, 8432); (11388, 11389);
   (11503, 11505); (11631, 11631); (11647, 11647); (11744, 11775); (11823, 11823);
   (12293, 12293); (12330, 12333); (12337, 12341); (12347, 12347); (12441, 12446);
   (12540, 12542); (40981, 40981); (42232, 42237); (42508, 42508); (42607, 42610);
   (42612, 42621); (42623, 42623); (42652, 42655); (42736, 42737); (42752, 42785);
   (42864, 42864); (42888, 42890); (42994, 42996); (43000, 43001); (43010, 43010);
   (43014, 43014); (43019, 43019); (43045, 43046); (43052, 43052); (43204, 43205);
   (43232, 43249); (43263, 43263); (43302, 43309); (43335, 43345); (43392, 43394);
   (43443, 43443); (43446, 43449); (43452, 43453); (43471, 43471); (43493, 43494);
   (43561, 43566); (43569, 43570); (43573, 43574); (43587, 43587); (43596, 43596);
   (43632, 43632); (43644, 43644); (43696, 43696); (43698, 43700); (43703, 43704);
   (43710, 43711); (43713, 43713); (43741, 43741); (43756, 43757); (43763, 43764);
   (43766, 43766); (43867, 43871); (43881, 43883); (44005, 44005); (44008, 44008);
   (44013, 44013); (64286, 64286); (64434, 64450); (65024, 65039); (65043, 65043);
   (65056, 65071); (65106, 65106); (65109, 65109); (65279, 65279); (65287, 65287);
   (65294, 65294); (65306, 65306); (65342, 65342); (65344, 65344); (65392, 65392);
   (65438, 65439); (65507, 65507); (65529, 65531); (66045, 66045); (66272, 66272);
   (66422, 66426); (67456, 67461); (67463, 67504); (67506, 67514); (68097, 68099);
   (68101, 68102); (68108, 68111); (68152, 68154); (68159, 68159); (68325, 68326);
   (68900, 68903); (69291, 69292); (69446, 69456); (69506, 69509); (69633, 69633);
   (69688, 69702); (69744, 69744); (69747, 69748); (69759, 69761); (69811, 69814);
   (69817, 69818); (69821, 69821); (69826, 69826); (69837, 69837); (69888, 69890);
   (69927, 69931); (69933, 69940); (70003, 70003); (70016, 70017); (70070, 70078);
   (70089, 70092); (70095, 70095); (70191, 70193); (70196, 70196); (70198, 70199);
   (70206, 70206); (70367, 70367); (70371, 70378); (70400, 70401); (70459, 70460);
   (70464, 70464); (70502, 70508); (70512, 70516); (70712, 70719); (70722, 70724);
   (70726, 70726); (70750, 70750); (70835, 70840); (70842, 70842); (70847, 70848);
   (70850, 70851); (71090, 71093); (71100, 71101); (71103, 71104); (71132, 71133);
   (71219, 71226); (71229, 71229); (71231, 71232); (71339, 71339); (71341, 71341);
   (71344, 71349); (71351, 71351); (71453, 71455); (71458, 71461); (71463, 71467);
   (71727, 71735); (71737, 71738); (71995, 71996); (71998, 71998); (72003, 72003);
   (72148, 72151); (72154, 72155); (72160, 72160); (72193, 72202); (72243, 72248);
   (72251, 72254); (72263, 72263); (72273, 72278); (72281, 72283); (72330, 72342);
   (72344, 72345); (72752, 72758); (72760, 72765); (72767, 72767); (72850, 72871);
   (72874, 72880); (72882, 72883); (72885, 72886); (73009, 73014); (73018, 73018);
   (73020, 73021); (73023, 73029); (73031, 73031); (73104, 73105); (73109, 73109);
   (73111, 73111); (73459, 73460); (78896, 78904); (92912, 92916); (92976, 92982);
   (92992, 92995); (94031, 94031); (94095, 94111); (94176, 94177); (94179, 94180);
   (110576, 110579); (110581, 110587); (110589, 110590); (113821, 113822); (113824, 113827);
   (118528, 118573); (118576, 118598); (119143, 119145); (119155, 119170); (119173, 119179);
   (119210, 119213); (119362, 119364); (121344, 121398); (121403, 121452); (121461, 121461);
   (121476, 121476); (121499, 121503); (121505, 121519); (122880, 122886); (122888, 122904);
   (122907, 122913); (122915, 122916); (122918, 122922); (123184, 123197); (123566, 123566);
   (123628, 123631); (125136, 125142); (125252, 125259); (127995, 127999); (917505, 917505);
   (917536, 917631); (917760, 917999)].

(** The image of [c] under a table of runs; [c] itself when no run maps
    it. *)
Fixpoint run_image (runs : list (N * N * bool * N)) (c : N) : N :=
  match runs with
  | [] => c
  | (first, last, alternate, image) :: rest =>
      if (first <=? c) && (c <=? last) && (negb alternate || N.even (c - first))
      then image + (c - first)
      else run_image rest c
  end.

Definition in_ranges (ranges : list (N * N)) (c : N) : bool :=
  existsb (fun r => (fst r <=? c) && (c <=? snd r)) ranges.

(** Lower-casing of one code point to one code point (CPython's
    [Py_UNICODE_TOLOWER], which the regex engine uses under [re.I]): written
    out for Basic Latin and the Latin-1 Supplement, from the table above
    them. *)
Definition lower_char (c : char) : char :=
  if c <? 256 then
    if ((65 <=? c) && (c <=? 90))
       || ((192 <=? c) && (c <=? 222) && negb (c =? 215))
    then c + 32 else c
  else run_image LOWER_RUNS c.

(** [_PyUnicode_IsCased], for the code points that are not
    case-ignorable: the final-sigma test asks it of no other. *)
Definition cased (c : char) : bool := in_ranges CASED c.

(** [_PyUnicode_IsCaseIgnorable] *)
Definition case_ignorable (c : char) : bool := in_ranges CASE_IGNORABLE c.

Definition is_digit (c : char) : bool := (48 <=? c) && (c <=? 57).

Local Close Scope N_scope.

(** The first code point of [s] that is not case-ignorable. *)
Fixpoint skip_ignorable (s : str) : option N :=
  match s with
  | [] => None
  | c :: s' => if case_ignorable c then skip_ignorable s' else Some c
  end.

(** Whether a capital sigma is the last letter of its word: a cased letter
    comes before it and none comes after it, case-ignorable characters
    apart.  [before] is the text before the sigma, nearest first. *)
Definition final_sigma (before after : str) : bool :=
  match skip_ignorable before with
  | Some c =>
      cased c &&
      match skip_ignorable after with
      | Some d => negb (cased d)
      | None => true
      end
  | None => false
  end.

(** What [str.lower()] puts for the code point [c] between [before]
    (nearest first) and [after]: U+03A3 becomes the final or the medial
    small sigma, U+0130 becomes two code points, every other code point its
    simple image. *)
Definition lower_at (before : str) (c : N) (after : str) : str :=
  if (c =? 931)%N then [if final_sigma before after then 962%N else 963%N]
  else if (c =? 304)%N then [105%N; 775%N]
  else [lower_char c].

Fixpoint lower_from (before s : str) : str :=
  match s with
  | [] => []
  | c :: s' => lower_at before c s' ++ lower_from (c :: before) s'
  end.

(** [s.lower()] *)
Definition lower (s : str) : str := lower_from [] s.

Fixpoint lstrip (s : str) : str :=
  match s with
  | c :: s' => if is_space c then lstrip s' else s
  | [] => []
  end.

Definition rstrip (s : str) : str := rev (lstrip (rev s)).

(** [s.strip()] *)
Definition strip (s : str) : str := rstrip (lstrip s).

Fixpoint is_prefix (p s : str) : bool :=
  match p, s with
  | [], _ => true
  | a :: p', b :: s' => (a =? b)%N && is_prefix p' s'
  | _ :: _, [] => false
  end.

(** [needle in hay] *)
Fixpoint contains (needle hay : str) : bool :=
  is_prefix needle hay ||
  match hay with
  | [] => false
  | _ :: hay' => contains needle hay'
  end.

(** [sep.join(parts)] *)
Fixpoint join (sep : str) (parts : list str) : str :=
  match parts with
  | [] => []
  | [p] => p
  | p :: rest => p ++ sep ++ join sep rest
  end.

(** [s.replace(old, new)] for a non-empty [old]: left to right, without
    overlap.  [skip] counts the characters of a match still to be dropped. *)
Fixpoint replace_from (old new : str) (skip : nat) (s : str) : str :=
  match s with
  | [] => []
  | c :: s' =>
      match skip with
      | S k => replace_from old new k s'
      | O => if is_prefix old s
             then new ++ replace_from old new (length old - 1) s'
             else c :: replace_from old new 0 s'
      end
  end.

Definition replace (old new s : str) : str := replace_from old new 0 s.

(** [l[-k:]] for a positive [k]. *)
Definition last_n {A} (k : nat) (l : list A) : list A := skipn (length l - k) l.

(** Decimal numeral of an integer, as [str(int)] prints it. *)
Definition decimal (z : Z) : str := lit (NilZero.string_of_int (Z.to_int z)).

(** ** Exceptions *)

Inductive exc_class :=
| SyntaxError | ZeroDivisionError | TypeError | ValueError | OverflowError
| MemoryError | RecursionError | FileNotFoundError
| KeyboardInterrupt | SystemExit.

(** [issubclass(c, Exception)]: what an [except Exception] clause catches. *)
Definition is_Exception (c : exc_class) : bool :=
  match c with
  | KeyboardInterrupt | SystemExit => false
  | _ => true
  end.

(** A raised exception: its class and [str(e)]. *)
Record exn := { exn_class : exc_class; exn_str : str }.

(** What a call does: it returns or it raises. *)
Inductive outcome (A : Type) :=
| Ok (a : A)
| Raise (e : exn).
Arguments Ok {A} a.
Arguments Raise {A} e.

(** ** The expression evaluator

    [eval(expr, {"__builtins__": {}}, {})] and the formatting of its value
    inside the f-string are the interpreter's work, not the script's. *)

Class Interpreter := {
  value : Type;
  int_value : Z -> value;
  py_eval : str -> outcome value;
  py_format : value -> outcome str
}.

(** *** Reference semantics of integer arithmetic

    What Python computes for the sanitised expressions that stay within
    integers: decimal literals, unary and binary [+ - * //], parentheses, and
    [/] by zero.  [None] is "not covered here" (floats, [**], calls, the
    empty tuple, [...]). *)

(** The two ways such an expression fails, and the exceptions they are. *)
Inductive arith_error := Malformed | DivisionByZero.

Definition error_class (a : arith_error) : exc_class :=
  match a with
  | Malformed => SyntaxError
  | DivisionByZero => ZeroDivisionError
  end.

Inductive token :=
| TInt (z : Z) | TPlus | TMinus | TStar | TSlash | TDSlash | TLParen | TRParen.

Definition digit_val (c : char) : Z := Z.of_N c - 48.

(** A run of digits, most significant first.  A literal with a leading zero
    is accepted only when all its digits are zero. *)
Definition number_token (ds : str) : arith_error + token :=
  let v := fold_left (fun acc c => 10 * acc + digit_val c) ds 0 in
  match ds with
  | 48%N :: _ :: _ => if v =? 0 then inr (TInt 0) else inl Malformed
  | _ => inr (TInt v)
  end.

Definition lexed := option (arith_error + list token).

Definition lex_cons (t : arith_error + token) (r : lexed) : lexed :=
  match r with
  | None => None
  | Some (inl e) => Some (inl e)
  | Some (inr ts) =>
      match t with
      | inl e => Some (inl e)
      | inr tk => Some (inr (tk :: ts))
      end
  end.

(** Emit the pending digit run [cur] (kept in reverse), if any. *)
Definition flush (cur : str) (r : lexed) : lexed :=
  match cur with
  | [] => r
  | _ => lex_cons (number_token (rev cur)) r
  end.

Fixpoint lex (s cur : str) : lexed :=
  match s with
  | [] => flush cur (Some (inr []))
  | c :: s' =>
      if is_digit c then lex s' (c :: cur)
      else flush cur
        match c with
        | 32%N => lex s' []
        | 43%N => lex_cons (inr TPlus) (lex s' [])
        | 45%N => lex_cons (inr TMinus) (lex s' [])
        | 40%N => lex_cons (inr TLParen) (lex s' [])
        | 41%N => lex_cons (inr TRParen) (lex s' [])
        | 42%N =>
            match s' with
            | 42%N :: _ => None
            | _ => lex_cons (inr TStar) (lex s' [])
            end
        | 47%N =>
            match s' with
            | 47%N :: s'' => lex_cons (inr TDSlash) (lex s'' [])
            | _ => lex_cons (inr TSlash) (lex s' [])
            end
        | _ => None
        end
  end.

Inductive binop := Add | Sub | Mul | TrueDiv | FloorDiv.

Inductive expr :=
| Num (z : Z)
| Neg (e : expr)
| Pos (e : expr)
| Bin (op : binop) (l r : expr).

Inductive parsed (A : Type) :=
| Parsed (a : A) (rest : list token)
| SyntaxErr
| NotCovered.
Arguments Parsed {A} a rest.
Arguments SyntaxErr {A}.
Arguments NotCovered {A}.

(** A left-associative chain [l op r op r ...] whose operands are read by
    [operand] and whose operators are those [op_of] recognises. *)
Fixpoint binop_chain (operand : list token -> parsed expr)
    (op_of : token -> option binop) (n : nat) (l : expr) (ts : list token)
    : parsed expr :=
  match n, ts with
  | O, _ => NotCovered
  | S n', t :: ts' =>
      match op_of t with
      | Some op =>
          match operand ts' with
          | Parsed r ts'' => binop_chain operand op_of n' (Bin op l r) ts''
          | SyntaxErr => SyntaxErr
          | NotCovered => NotCovered
          end
      | None => Parsed l ts
      end
  | S _, [] => Parsed l ts
  end.

Definition sum_op (t : token) : option binop :=
  match t with
  | TPlus => Some Add
  | TMinus => Some Sub
  | _ => None
  end.

Definition term_op (t : token) : option binop :=
  match t with
  | TStar => Some Mul
  | TSlash => Some TrueDiv
  | TDSlash => Some FloorDiv
  | _ => None
  end.

(** An operand directly followed by an opening parenthesis is a call. *)
Definition no_call (r : parsed expr) : parsed expr :=
  match r with
  | Parsed _ (TLParen :: _) => NotCovered
  | _ => r
  end.

(** Recursive descent after Python's grammar:
    sum: term (('+'|'-') term)*;  term: factor (('*'|'/'|'//') factor)*;
    factor: ('+'|'-') factor | primary;  primary: INT | '(' sum ')'.
    An empty pair of parentheses (the empty tuple) and a starred operand are
    not covered. *)
Fixpoint parse_sum (fuel : nat) (ts : list token) : parsed expr :=
  match fuel with
  | O => NotCovered
  | S fuel' =>
      match parse_term fuel' ts with
      | Parsed l ts' => binop_chain (parse_term fuel') sum_op fuel' l ts'
      | o => o
      end
  end
with parse_term (fuel : nat) (ts : list token) : parsed expr :=
  match fuel with
  | O => NotCovered
  | S fuel' =>
      match parse_factor fuel' ts with
      | Parsed l ts' => binop_chain (parse_factor fuel') term_op fuel' l ts'
      | o => o
      end
  end
with parse_factor (fuel : nat) (ts : list token) : parsed expr :=
  match fuel with
  | O => NotCovered
  | S fuel' =>
      match ts with
      | TPlus :: ts' =>
          match parse_factor fuel' ts' with
          | Parsed e r => Parsed (Pos e) r
          | o => o
          end
      | TMinus :: ts' =>
          match parse_factor fuel' ts' with
          | Parsed e r => Parsed (Neg e) r
          | o => o
          end
      | TInt z :: ts' => no_call (Parsed (Num z) ts')
      | TLParen :: TRParen :: _ => NotCovered
      | TLParen :: ts' =>
          match parse_sum fuel' ts' with
          | Parsed e (TRParen :: ts'') => no_call (Parsed e ts'')
          | Parsed _ _ => SyntaxErr
          | o => o
          end
      | TStar :: _ => NotCovered
      | _ => SyntaxErr
      end
  end.

(** A whole expression: nothing may follow it. *)
Definition parse_expression (ts : list token) : parsed expr :=
  match parse_sum (3 * length ts + 3) ts with
  | Parsed e [] => Parsed e []
  | Parsed _ (_ :: _) => SyntaxErr
  | o => o
  end.

(** Evaluation, operands left to right.  True division by a non-zero
    divisor yields a float and is not covered. *)
Fixpoint eval_expr (e : expr) : option (arith_error + Z) :=
  match e with
  | Num z => Some (inr z)
  | Pos e1 =>
      match eval_expr e1 with
      | Some (inr v) => Some (inr v)
      | o => o
      end
  | Neg e1 =>
      match eval_expr e1 with
      | Some (inr v) => Some (inr (- v))
      | o => o
      end
  | Bin op l r =>
      match eval_expr l with
      | Some (inr a) =>
          match eval_expr r with
          | Some (inr b) =>
              match op with
              | Add => Some (inr (a + b))
              | Sub => Some (inr (a - b))
              | Mul => Some (inr (a * b))
              | FloorDiv => if b =? 0 then Some (inl DivisionByZero)
                            else Some (inr (a / b))
              | TrueDiv => if b =? 0 then Some (inl DivisionByZero)
                           else None
              end
          | o => o
          end
      | o => o
      end
  end.

(** CPython bounds the nesting of parentheses, the depth of the syntax tree
    it compiles and the number of digits of an integer it converts to or
    from text; expressions of more than 100 characters are left out, which
    stays clear of all three. *)
Definition MAX_COVERED_LENGTH : nat := 100.

Definition int_arith (s : str) : option (arith_error + Z) :=
  if (MAX_COVERED_LENGTH <? length s)%nat then None
  else
    match lex s [] with
    | None => None
    | Some (inl e) => Some (inl e)
    | Some (inr ts) =>
        match parse_expression ts with
        | Parsed e _ => eval_expr e
        | SyntaxErr => Some (inl Malformed)
        | NotCovered => None
        end
    end.

(** ** Memory document and the file behind it *)

(** A note, [{"text": ..., "ts": ...}]. *)
Record note := { text : str; ts : str }.

(** [{"messages": ..., "start_ts": ...}] *)
Record metrics_t := { messages : Z; start_ts : Q }.

(** [{"notes": [...], "metrics": {...}}] *)
Record document := { notes : list note; metrics : metrics_t }.

(** The [json] codec and the location of the file.  [json_load] is [None]
    when reading or parsing raises.  The store is modelled for documents of
    the shape the program writes: what [json.load] would return for a file
    holding other JSON (a list, an object without the two keys) has no
    counterpart here, and [json_dump] is taken to succeed on the documents
    the program builds. *)
Class Storage := {
  MEM_PATH : str;
  json_dump : document -> str;
  json_load : str -> option document
}.

(** File operations performed, oldest first. *)
Inductive io_event :=
| FileWrite (path content : str)
| FileReplace (src dst : str).

(** The globals of the module and the disk. *)
Record world := {
  mem : document;
  rate : rate_state;
  disk : gmap (list N) (list N);
  io_log : list io_event
}.

(** Clock readings taken while one message is handled: [time.time()] and
    [datetime.utcnow().isoformat()]. *)
Record clock := { time_time : Q; utcnow_iso : str }.

(** *** State and exceptions *)

Definition M (A : Type) : Type := world -> outcome A * world.

Definition ret {A} (a : A) : M A := fun w => (Ok a, w).

Definition bind {A B} (m : M A) (k : A -> M B) : M B :=
  fun w =>
    match m w with
    | (Ok a, w') => k a w'
    | (Raise e, w') => (Raise e, w')
    end.

Notation "x <- m ;; k" := (bind m (fun x => k))
  (at level 100, m at next level, right associativity).
Notation "m ;;; k" := (bind m (fun _ => k))
  (at level 100, right associativity).

Definition get_mem : M document := fun w => (Ok (mem w), w).

Definition set_mem (d : document) : M unit :=
  fun w => (Ok tt, {| mem := d; rate := rate w; disk := disk w; io_log := io_log w |}).

Definition lift_outcome {A} (o : outcome A) : M A := fun w => (o, w).

(** [with open(path, "w") as f: f.write(content)], for a write that
    succeeds; failures of the file system are not modelled. *)
Definition file_write (path content : str) : M unit :=
  fun w => (Ok tt, {| mem := mem w; rate := rate w;
                      disk := <[path := content]> (disk w);
                      io_log := io_log w ++ [FileWrite path content] |}).

(** [os.replace(src, dst)] *)
Definition os_replace (src dst : str) : M unit :=
  fun w =>
    match disk w !! src with
    | Some content =>
        (Ok tt, {| mem := mem w; rate := rate w;
                   disk := <[dst := content]> (delete src (disk w));
                   io_log := io_log w ++ [FileReplace src dst] |})
    | None => (Raise {| exn_class := FileNotFoundError; exn_str := src |}, w)
    end.

(** The document a fresh start gets, at clock reading [now]. *)
Definition default_mem (now : Q) : document :=
  {| notes := []; metrics := {| messages := 0; start_ts := now |} |}.

Definition load_mem `{Storage} (now : Q) (fs : gmap (list N) (list N)) : document :=
  match fs !! MEM_PATH with
  | Some content =>
      match json_load content with
      | Some d => d
      | None => default_mem now
      end
  | None => default_mem now
  end.

Definition save_mem `{Storage} (d : document) : M unit :=
  let tmp := MEM_PATH ++ lit ".tmp" in
  file_write tmp (json_dump d) ;;;
  os_replace tmp MEM_PATH.

(** The world once the module is imported: [mem = load_mem()] and the two
    counters. *)
Definition startup `{Storage} (now : Q) (fs : gmap (list N) (list N)) : world :=
  {| mem := load_mem now fs; rate := rate_init now; disk := fs; io_log := [] |}.

(** ** Tools *)

(** The characters that the [re.sub] of [tool_calc] keeps: those of the
    negated class, which lists the range 0-9, the signs + - * / ( ) . and
    the space character. *)
Definition calc_allowed (c : char) : bool :=
  is_digit c ||
  existsb (N.eqb c) [43; 45; 42; 47; 40; 41; 46; 32]%N.

Definition sanitize (expr : str) : str := List.filter calc_allowed expr.

(** [try: body  except Exception as e: handler(e)] *)
Definition try_except_Exception {A} (body : outcome A) (handler : exn -> outcome A)
    : outcome A :=
  match body with
  | Ok a => Ok a
  | Raise e => if is_Exception (exn_class e) then handler e else Raise e
  end.

Definition tool_calc `{Interpreter} (expr : str) : outcome str :=
  let expr := sanitize expr in
  try_except_Exception
    match py_eval expr with
    | Ok val =>
        match py_format val with
        | Ok shown => Ok (expr ++ lit " = " ++ shown)
        | Raise e => Raise e
        end
    | Raise e => Raise e
    end
    (fun e => Ok (lit "Calc error: " ++ exn_str e)).

Definition tool_remember `{Storage} (clk : clock) (text : str) : M str :=
  let item := {| text := strip text; ts := utcnow_iso clk ++ lit "Z" |} in
  m <- get_mem ;;
  set_mem {| notes := notes m ++ [item]; metrics := metrics m |} ;;;
  m' <- get_mem ;;
  save_mem m' ;;;
  ret (lit "Saved: " ++ [8220%N] ++ strip text ++ [8221%N]).

Definition format_hit (h : note) : str :=
  lit "- " ++ text h ++ lit " (@" ++ ts h ++ lit ")".

Definition recall_text (all : list note) (query : str) : str :=
  let q := lower (strip query) in
  let hits :=
    match q with
    | _ :: _ => List.filter (fun n => contains q (lower (text n))) all
    | [] => last_n 5 all
    end in
  match hits with
  | [] => lit "No memory found."
  | _ => lit "Recent memory:" ++ [10%N]
         ++ join [10%N] (List.map format_hit (last_n 5 hits))
  end.

Definition tool_recall (query : str) : M str :=
  m <- get_mem ;;
  ret (recall_text (notes m) query).

(** ** Command dispatcher *)

Fixpoint str_eqb (a b : str) : bool :=
  match a, b with
  | [], [] => true
  | x :: a', y :: b' => (x =? y)%N && str_eqb a' b'
  | _, _ => false
  end.

(** A lower-case ASCII word of the pattern matched under [re.I] at the
    start of [s]: the text matched and what follows it. *)
Fixpoint ci_prefix (name s : str) : option (list N * list N) :=
  match name, s with
  | [], _ => Some ([], s)
  | p :: name', c :: s' =>
      if (lower_char c =? p)%N
      then match ci_prefix name' s' with
           | Some (g, r) => Some (c :: g, r)
           | None => None
           end
      else None
  | _ :: _, [] => None
  end.

(** The places where the greedy [\s*] can stop, first choice first, each
    given by the text still to be matched. *)
Fixpoint ws_splits (s : str) : list (list N) :=
  match s with
  | c :: s' => if is_space c then ws_splits s' ++ [s] else [s]
  | [] => [[]]
  end.

(** The longest prefix without a line feed, and the rest. *)
Fixpoint line_head (s : str) : list N * list N :=
  match s with
  | c :: s' =>
      if (c =? 10)%N then ([], s)
      else let '(a, b) := line_head s' in (c :: a, b)
  | [] => ([], [])
  end.

(** The tail of the pattern, a greedy any-character group followed by the
    end anchor: the group, when the tail matches all of [s].  The dot takes
    anything but a line feed; the anchor matches at the end and before a
    line feed that ends the text. *)
Definition dot_star_end (s : str) : option (list N) :=
  match line_head s with
  | (a, []) => Some a
  | (a, [_]) => Some a
  | _ => None
  end.

Fixpoint first_match {A B} (f : A -> option B) (l : list A) : option B :=
  match l with
  | [] => None
  | x :: l' =>
      match f x with
      | Some b => Some b
      | None => first_match f l'
      end
  end.

(** The [re.match] of [try_tools] on [s]: a slash, one of the three command
    words in any case, optional white space, the rest of the line up to the
    end.  Returns groups 1 and 2. *)
Definition re_match_command (s : str) : option (list N * list N) :=
  match s with
  | 47%N :: s1 =>
      first_match
        (fun name =>
           match ci_prefix name s1 with
           | Some (g1, rest) =>
               first_match
                 (fun r => match dot_star_end r with
                           | Some g2 => Some (g1, g2)
                           | None => None
                           end)
                 (ws_splits rest)
           | None => None
           end)
        [lit "calc"; lit "remember"; lit "recall"]
  | _ => None
  end.

Definition try_tools `{Interpreter} `{Storage} (clk : clock) (message_text : str)
    : M (option (list N)) :=
  match re_match_command (strip message_text) with
  | None => ret None
  | Some (g1, arg) =>
      let cmd := lower g1 in
      if str_eqb cmd (lit "calc") then
        out <- lift_outcome (tool_calc arg) ;; ret (Some out)
      else if str_eqb cmd (lit "remember") then
        out <- tool_remember clk arg ;; ret (Some out)
      else if str_eqb cmd (lit "recall") then
        out <- tool_recall arg ;; ret (Some out)
      else ret (Some (lit "Unknown command: /" ++ cmd))
  end.

(** ** The improvement function *)

Definition ratelimit_ok_m (now : Q) : M bool :=
  fun w =>
    let '(ok, r) := ratelimit_ok now (rate w) in
    (Ok ok, {| mem := mem w; rate := r; disk := disk w; io_log := io_log w |}).

(** [mem["metrics"]["messages"] += 1] *)
Definition count_message : M unit :=
  m <- get_mem ;;
  set_mem {| notes := notes m;
             metrics := {| messages := messages (metrics m) + 1;
                           start_ts := start_ts (metrics m) |} |}.

Definition RATE_LIMITED : str := lit "Rate limit exceeded. Try again in a minute.".

Definition REFUSAL : str :=
  lit "I can" ++ [8217%N] ++ lit "t ignore my instructions, but happy to help.".

(** The text chosen for a message no tool took. *)
Definition respond (user : str) : str :=
  if contains (lit "ignore previous") (lower user)
  then REFUSAL
  else replace (lit "goodbye") (lit "farewell")
         (replace (lit "Hello") (lit "Greetings")
            (replace (lit "hello") (lit "greetings") user)).

Definition memory_hint (all : list note) : str :=
  match all with
  | [] => []
  | _ => lit " (FYI I remember: "
         ++ join (lit ", ") (List.map text (last_n 2 all)) ++ lit ")"
  end.

(** Step 3 of [improve]: the reply to a message no tool took. *)
Definition compose `{Storage} (message_text : str) : M str :=
  let user := message_text in
  let resp := respond user in
  m <- get_mem ;;
  let hint := memory_hint (notes m) in
  count_message ;;;
  m' <- get_mem ;;
  save_mem m' ;;;
  ret (lit "[nanda] " ++ resp ++ hint).

Definition improve `{Interpreter} `{Storage} (clk : clock) (message_text : str) : M str :=
  ok <- ratelimit_ok_m (time_time clk) ;;
  if negb ok then ret RATE_LIMITED
  else
    tool_out <- try_tools clk message_text ;;
    match tool_out with
    | Some out =>
        count_message ;;;
        m <- get_mem ;;
        save_mem m ;;;
        ret out
    | None => compose message_text
    end.

(** ** What is assumed of the interpreter *)


(** The interpreter computes integer arithmetic as [int_arith] says, and
    prints integers of up to 4300 digits in decimal. *)
Definition computes_int_arith (I : Interpreter) : Prop :=
  (forall s z, int_arith s = Some (inr z) -> py_eval s = Ok (int_value z)) /\
  (forall s a, int_arith s = Some (inl a) ->
     exists msg, py_eval s = Raise {| exn_class := error_class a; exn_str := msg |}) /\
  (forall z, Z.abs z < 10 ^ 4300 -> py_format (int_value z) = Ok (decimal z)).

(** Two interpreters that agree on every text made of the characters the
    sanitiser keeps. *)
Definition agree_on_sanitised (I J : Interpreter) : Prop :=
  forall s, forallb calc_allowed s = true ->
    match @py_eval I s, @py_eval J s with
    | Ok v, Ok v' => @py_format I v = @py_format J v'
    | Raise e, Raise e' => e = e'
    | _, _ => False
    end.

(** An interpreter of integer arithmetic alone: whatever [int_arith] does
    not cover is refused with a [TypeError]. *)
Definition int_eval (s : str) : outcome Z :=
  match int_arith s with
  | Some (inr z) => Ok z
  | Some (inl DivisionByZero) =>
      Raise {| exn_class := ZeroDivisionError; exn_str := lit "division by zero" |}
  | Some (inl Malformed) =>
      Raise {| exn_class := SyntaxError;
               exn_str := lit "invalid syntax (<string>, line 1)" |}
  | None =>
      Raise {| exn_class := TypeError; exn_str := lit "unsupported expression" |}
  end.

Definition int_format (z : Z) : outcome (list N) :=
  if Z.abs z <? 10 ^ 4300 then Ok (decimal z)
  else Raise {| exn_class := ValueError;
                exn_str := lit "Exceeds the limit (4300 digits) for integer string conversion" |}.

Definition int_interpreter : Interpreter :=
  {| value := Z; int_value := fun z => z; py_eval := int_eval; py_format := int_format |}.

(** ** The sanitiser as the specification words it

    Keep the digits, the signs + - * / ( ) . and every white-space
    character. *)
Definition spec_sanitize (expr : str) : str :=
  List.filter
    (fun c => is_digit c || existsb (N.eqb c) [43; 45; 42; 47; 40; 41; 46]%N || is_space c)
    expr.

(** ** A length-prefixed codec

    A simple text format for documents, used to run [save_mem] and
    [load_mem] on concrete data: every string is written as its length, a
    colon and its characters. *)

Fixpoint read_digits (s : str) (acc : N) : N * list N :=
  match s with
  | c :: s' => if is_digit c then read_digits s' (10 * acc + (c - 48))%N else (acc, s)
  | [] => (acc, [])
  end.

Definition read_int (s : str) : Z * list N :=
  match s with
  | 45%N :: s' => let '(n, r) := read_digits s' 0%N in (- Z.of_N n, r)
  | _ => let '(n, r) := read_digits s 0%N in (Z.of_N n, r)
  end.

Definition write_field (s : str) : str :=
  decimal (Z.of_nat (length s)) ++ lit ":" ++ s.

Definition read_field (s : str) : option (list N * list N) :=
  let '(n, r) := read_digits s 0%N in
  match r with
  | 58%N :: r' =>
      if (length r' <? N.to_nat n)%nat then None
      else Some (firstn (N.to_nat n) r', skipn (N.to_nat n) r')
  | _ => None
  end.

Definition write_note (n : note) : str := write_field (text n) ++ write_field (ts n).

Fixpoint read_notes (count : nat) (s : str) : option (list note * list N) :=
  match count with
  | O => Some ([], s)
  | S k =>
      match read_field s with
      | Some (t, r1) =>
          match read_field r1 with
          | Some (stamp, r2) =>
              match read_notes k r2 with
              | Some (ns, r3) => Some ({| text := t; ts := stamp |} :: ns, r3)
              | None => None
              end
          | None => None
          end
      | None => None
      end
  end.

Definition plain_dump (d : document) : str :=
  decimal (messages (metrics d)) ++ lit ";"
  ++ decimal (Qnum (start_ts (metrics d))) ++ lit "/"
  ++ decimal (Zpos (Qden (start_ts (metrics d)))) ++ lit ";"
  ++ decimal (Z.of_nat (length (notes d))) ++ lit ";"
  ++ concat (List.map write_note (notes d)).

Definition plain_load (s : str) : option document :=
  let '(m, r1) := read_int s in
  match r1 with
  | 59%N :: r1' =>
      let '(num, r2) := read_int r1' in
      match r2 with
      | 47%N :: r2' =>
          let '(den, r3) := read_digits r2' 0%N in
          match den, r3 with
          | Npos p, 59%N :: r3' =>
              let '(count, r4) := read_digits r3' 0%N in
              match r4 with
              | 59%N :: r4' =>
                  match read_notes (N.to_nat count) r4' with
                  | Some (ns, []) =>
                      Some {| notes := ns;
                              metrics := {| messages := m; start_ts := Qmake num p |} |}
                  | _ => None
                  end
              | _ => None
              end
          | _, _ => None
          end
      | _ => None
      end
  | _ => None
  end.

Definition plain_storage : Storage :=
  {| MEM_PATH := lit "memory.json"; json_dump := plain_dump; json_load := plain_load |}.

(** ** Sample data *)

Definition sample_clock : clock :=
  {| time_time := 1730000000 # 1; utcnow_iso := lit "2024-10-27T03:33:20" |}.

Definition sample_note (t : string) : note :=
  {| text := lit t; ts := lit "2024-10-27T03:33:20Z" |}.

Definition sample_doc : document :=
  {| notes := [sample_note "buy milk"; sample_note "call Bob"];
     metrics := {| messages := 7; start_ts := 3460000001 # 2 |} |}.

Definition sample_world : world :=
  {| mem := sample_doc; rate := rate_init (time_time sample_clock);
     disk := ∅; io_log := [] |}.

(** A world just started, with nothing on disk. *)
Definition fresh_world : world :=
  {| mem := default_mem (time_time sample_clock);
     rate := rate_init (time_time sample_clock); disk := ∅; io_log := [] |}.

(** A world whose limiter has admitted 60 messages in the current minute. *)
Definition full_world : world :=
  {| mem := sample_doc;
     rate := {| _last_bucket := bucket_of (time_time sample_clock);
                _msgs_in_bucket := 60 |};
     disk := ∅; io_log := [] |}.

(** ** Notions used to state further properties *)

(** The temporary file [save_mem] writes before it replaces the store. *)
Definition TMP_PATH `{Storage} : str := MEM_PATH ++ lit ".tmp".

(** The file of the store holds the document in memory and no temporary
    file is left. *)
Definition in_sync `{Storage} (w : world) : Prop :=
  disk w !! MEM_PATH = Some (json_dump (mem w)) /\ disk w !! TMP_PATH = None.

(** A file operation of the kind [save_mem] performs: a write to the
    temporary file, or the replacement of the store by the temporary file. *)
Definition save_event `{Storage} (e : io_event) : Prop :=
  match e with
  | FileWrite path _ => path = TMP_PATH
  | FileReplace src dst => src = TMP_PATH /\ dst = MEM_PATH
  end.

(** The caller's loop: one call of [improve] per incoming message, each
    with the clock readings of its moment; an exception ends the call it
    occurs in, not the loop. *)
Fixpoint improve_all `{Interpreter} `{Storage} (inputs : list (clock * list N))
    (w : world) : list (outcome (list N)) * world :=
  match inputs with
  | [] => ([], w)
  | (clk, message_text) :: rest =>
      let '(o, w1) := improve clk message_text w in
      let '(os, w2) := improve_all rest w1 in
      (o :: os, w2)
  end.

(** The effect of [mem["metrics"]["messages"] += 1] on the document. *)
Definition count_doc (d : document) : document :=
  {| notes := notes d;
     metrics := {| messages := messages (metrics d) + 1;
                   start_ts := start_ts (metrics d) |} |}.

Definition put_mem (d : document) (w : world) : world :=
  {| mem := d; rate := rate w; disk := disk w; io_log := io_log w |}.

Definition put_rate (r : rate_state) (w : world) : world :=
  {| mem := mem w; rate := r; disk := disk w; io_log := io_log w |}.

(** The world after [save_mem d]. *)
Definition stored `{Storage} (d : document) (w : world) : world :=
  {| mem := mem w; rate := rate w;
     disk := <[MEM_PATH := json_dump d]>
               (delete TMP_PATH (<[TMP_PATH := json_dump d]> (disk w)));
     io_log := io_log w ++ [FileWrite TMP_PATH (json_dump d);
                            FileReplace TMP_PATH MEM_PATH] |}.

(** The world after the bookkeeping that ends a handled message: count it,
    then save. *)
Definition processed `{Storage} (w : world) : world :=
  stored (count_doc (mem w)) (put_mem (count_doc (mem w)) w).

(** The note [tool_remember] makes of its argument. *)
Definition new_note (clk : clock) (arg : str) : note :=
  {| text := strip arg; ts := utcnow_iso clk ++ lit "Z" |}.

(** The world after [tool_remember]: the note appended, the document
    saved. *)
Definition remembered `{Storage} (clk : clock) (arg : str) (w : world) : world :=
  let d := {| notes := notes (mem w) ++ [new_note clk arg];
              metrics := metrics (mem w) |} in
  stored d (put_mem d w).

(** The command words of the pattern, in the order it tries them. *)
Definition COMMANDS : list (list N) := [lit "calc"; lit "remember"; lit "recall"].

(** The text starts with a slash and, in whatever case, a command word. *)
Definition starts_command (s : str) : bool :=
  match s with
  | 47%N :: s1 => existsb (fun name => is_prefix name (lower s1)) COMMANDS
  | _ => false
  end.

Definition has_newline (s : str) : bool := existsb (N.eqb 10) s.

(** The text does not end in white space. *)
Definition ends_in_text (r : str) : Prop :=
  forall u c, r = u ++ [c] -> is_space c = false.

(** ** Notions used to reason about case *)

(** Neither U+03A3 nor U+0130, the two code points [str.lower()] does not
    map by the simple table. *)
Definition plain (c : N) : bool := negb (c =? 931)%N && negb (c =? 304)%N.

(** What [str.lower()] puts for a code point other than U+03A3, wherever
    it stands. *)
Definition lower_chunk (c : N) : list N :=
  if (c =? 304)%N then [105; 775]%N else [lower_char c].

Definition no_sigma (s : str) : bool := forallb (fun c => negb (c =? 931)%N) s.

(** The two halves of the context test for the final sigma. *)
Definition sigma_before (before : str) : bool :=
  match skip_ignorable before with
  | Some c => cased c
  | None => false
  end.

Definition sigma_after (after : str) : bool :=
  match skip_ignorable after with
  | Some d => negb (cased d)
  | None => true
  end.

(** The lower-cased form of the stretch [s] of a text, [before] (nearest
    first) and [after] being what surrounds it. *)
Fixpoint lower_in (before s after : str) : str :=
  match s with
  | [] => []
  | c :: s' => lower_at before c (s' ++ after) ++ lower_in (c :: before) s' after
  end.

(** The letters of the command words. *)
Definition cmd_letter (p : N) : bool :=
  existsb (N.eqb p) [97; 98; 99; 101; 108; 109; 114]%N.

(** The white-space code points of [is_space], as ranges. *)
Definition SPACES : list (N * N) :=
  [(9, 13); (28, 32); (133, 133); (160, 160); (5760, 5760); (8192, 8202);
   (8232, 8233); (8239, 8239); (8287, 8287); (12288, 12288)]%N.

Definition clear_of_spaces (first last : N) : bool :=
  forallb (fun r => (last <? fst r)%N || (snd r <? first)%N) SPACES.

Definition range_clear (r : N * N) : bool := clear_of_spaces (fst r) (snd r).

(** Checks on a run of the lower-case table: no white space in it or in
    its image; and it lies above Latin-1 with an image outside ASCII, the
    two single code points mapped to "i" and "k" apart. *)
Definition run_clear (r : N * N * bool * N) : bool :=
  let '(first, last, _, image) := r in
  clear_of_spaces first last && clear_of_spaces image (image + (last - first))%N.

Definition run_high (r : N * N * bool * N) : bool :=
  let '(first, last, _, image) := r in
  (256 <=? first)%N
  && ((128 <=? image)%N
      || ((first =? last)%N && ((image =? 105)%N || (image =? 107)%N))).

(** * Properties *)

(** ** Rate limiter *)

Section RateLimiter.

Implicit Types (s : rate_state) (now : Q).

Lemma ratelimit_ok_admit now s :
  bucket_of now = _last_bucket s ->
  _msgs_in_bucket s < RATE_LIMIT_PER_MIN ->
  ratelimit_ok now s =
    (true, {| _last_bucket := _last_bucket s;
              _msgs_in_bucket := _msgs_in_bucket s + 1 |}).
Proof.
  intros Hb Hc. unfold ratelimit_ok. rewrite Hb, Z.eqb_refl. simpl.
  destruct (Z.geb_spec (_msgs_in_bucket s) RATE_LIMIT_PER_MIN); [lia | reflexivity].
Qed.

Lemma ratelimit_ok_deny now s :
  bucket_of now = _last_bucket s ->
  RATE_LIMIT_PER_MIN <= _msgs_in_bucket s ->
  ratelimit_ok now s = (false, s).
Proof.
  intros Hb Hc. unfold ratelimit_ok. rewrite Hb, Z.eqb_refl. simpl.
  destruct (Z.geb_spec (_msgs_in_bucket s) RATE_LIMIT_PER_MIN); [reflexivity | lia].
Qed.

Lemma ratelimit_ok_new_bucket now s :
  bucket_of now <> _last_bucket s ->
  ratelimit_ok now s =
    (true, {| _last_bucket := bucket_of now; _msgs_in_bucket := 1 |}).
Proof.
  intros Hb. unfold ratelimit_ok.
  destruct (Z.eqb_spec (bucket_of now) (_last_bucket s)); [contradiction | reflexivity].
Qed.

Lemma ratelimit_ok_init now :
  fst (ratelimit_ok now (rate_init now)) = true.
Proof.
  rewrite ratelimit_ok_admit; [reflexivity | reflexivity |].
  cbn. unfold RATE_LIMIT_PER_MIN. lia.
Qed.

(** A refusal changes nothing at all. *)
Lemma ratelimit_ok_false_unchanged now s :
  fst (ratelimit_ok now s) = false -> snd (ratelimit_ok now s) = s.
Proof.
  destruct (Z.eq_dec (bucket_of now) (_last_bucket s)) as [Hb | Hb].
  - destruct (Z_lt_le_dec (_msgs_in_bucket s) RATE_LIMIT_PER_MIN) as [Hc | Hc].
    + rewrite (ratelimit_ok_admit _ _ Hb Hc). discriminate.
    + rewrite (ratelimit_ok_deny _ _ Hb Hc). reflexivity.
  - rewrite (ratelimit_ok_new_bucket _ _ Hb). discriminate.
Qed.

Lemma ratelimit_calls_within_limit (ts : list Q) : forall s,
  Forall (fun t => bucket_of t = _last_bucket s) ts ->
  _msgs_in_bucket s + Z.of_nat (length ts) <= RATE_LIMIT_PER_MIN ->
  ratelimit_calls ts s =
    (repeat true (length ts),
     {| _last_bucket := _last_bucket s;
        _msgs_in_bucket := _msgs_in_bucket s + Z.of_nat (length ts) |}).
Proof.
  induction ts as [| t ts IH]; intros s Hall Hlen.
  - simpl. destruct s; simpl. f_equal. f_equal. lia.
  - inversion Hall as [| ? ? Ht Hts]; subst.
    cbn [ratelimit_calls length repeat].
    rewrite ratelimit_ok_admit by (cbn [length] in Hlen; lia || assumption).
    rewrite IH; cbn [_last_bucket _msgs_in_bucket]; try assumption.
    + f_equal. f_equal. cbn [length]. lia.
    + cbn [length] in Hlen. lia.
Qed.

Lemma ratelimit_ok_bound now s :
  _msgs_in_bucket s <= RATE_LIMIT_PER_MIN ->
  _msgs_in_bucket (snd (ratelimit_ok now s)) <= RATE_LIMIT_PER_MIN.
Proof.
  intros Hc.
  destruct (Z.eq_dec (bucket_of now) (_last_bucket s)) as [Hb | Hb].
  - destruct (Z_lt_le_dec (_msgs_in_bucket s) RATE_LIMIT_PER_MIN) as [Hlt | Hge].
    + rewrite (ratelimit_ok_admit _ _ Hb Hlt). simpl. lia.
    + rewrite (ratelimit_ok_deny _ _ Hb Hge). simpl. lia.
  - rewrite (ratelimit_ok_new_bucket _ _ Hb). simpl. unfold RATE_LIMIT_PER_MIN. lia.
Qed.

Lemma rate_reachable_bound s :
  rate_reachable s -> 0 <= _msgs_in_bucket s <= RATE_LIMIT_PER_MIN.
Proof.
  induction 1 as [t0 | now s Hs IH].
  - simpl. unfold RATE_LIMIT_PER_MIN. lia.
  - split; [| apply ratelimit_ok_bound; lia].
    destruct (Z.eq_dec (bucket_of now) (_last_bucket s)) as [Hb | Hb].
    + destruct (Z_lt_le_dec (_msgs_in_bucket s) RATE_LIMIT_PER_MIN) as [Hlt | Hge].
      * rewrite (ratelimit_ok_admit _ _ Hb Hlt). simpl. lia.
      * rewrite (ratelimit_ok_deny _ _ Hb Hge). simpl. lia.
    + rewrite (ratelimit_ok_new_bucket _ _ Hb). simpl. lia.
Qed.

(** C1: within one minute, starting from a zero counter, any sequence of at
    most 60 calls is admitted call by call; after 60 admitted calls the 61st
    call in that minute is refused; and a refusing call, in whatever state,
    leaves the counter (indeed the whole limiter state) as it was. *)
Theorem ratelimit_sixty_then_deny (s : rate_state) (ts : list Q) (t61 : Q)
    (Hminute : Forall (fun t => bucket_of t = _last_bucket s) ts)
    (Hzero : _msgs_in_bucket s = 0)
    (Hlen : (length ts <= 60)%nat) :
  fst (ratelimit_calls ts s) = repeat true (length ts) /\
  _msgs_in_bucket (snd (ratelimit_calls ts s)) = Z.of_nat (length ts) /\
  (length ts = 60%nat -> bucket_of t61 = _last_bucket s ->
   ratelimit_ok t61 (snd (ratelimit_calls ts s))
     = (false, snd (ratelimit_calls ts s))) /\
  (forall now s', fst (ratelimit_ok now s') = false ->
     _msgs_in_bucket (snd (ratelimit_ok now s')) = _msgs_in_bucket s').
Proof.
  rewrite ratelimit_calls_within_limit
    by (assumption || (rewrite Hzero; unfold RATE_LIMIT_PER_MIN; lia)).
  cbn [fst snd _msgs_in_bucket]. rewrite Hzero.
  repeat split.
  - intros H60 Hb. apply ratelimit_ok_deny; cbn [_last_bucket _msgs_in_bucket].
    + assumption.
    + unfold RATE_LIMIT_PER_MIN. lia.
  - intros now s' Hdeny. now rewrite ratelimit_ok_false_unchanged.
Qed.

(** C8: in every reachable state of the limiter the counter is at most
    [RATE_LIMIT_PER_MIN], whether or not the stored bucket has changed, and
    every further call leads to a reachable state with the same bound. *)
Theorem rate_counter_bounded (s : rate_state) (Hreach : rate_reachable s) :
  _msgs_in_bucket s <= RATE_LIMIT_PER_MIN /\
  forall now,
    rate_reachable (snd (ratelimit_ok now s)) /\
    _msgs_in_bucket (snd (ratelimit_ok now s)) <= RATE_LIMIT_PER_MIN.
Proof.
  split.
  - apply rate_reachable_bound, Hreach.
  - intros now. split.
    + constructor. exact Hreach.
    + apply ratelimit_ok_bound, rate_reachable_bound, Hreach.
Qed.

Lemma ratelimit_sixty_then_deny_witness :
  let s := rate_init (1730000000 # 1) in
  let ts := repeat (1730000005 # 1) 60 in
  fst (ratelimit_calls ts s) = repeat true 60 /\
  _msgs_in_bucket (snd (ratelimit_calls ts s)) = 60 /\
  ratelimit_ok (1730000010 # 1) (snd (ratelimit_calls ts s))
    = (false, snd (ratelimit_calls ts s)).
Proof.
  intros s ts.
  assert (Hminute : Forall (fun t => bucket_of t = _last_bucket s) ts).
  { apply Stdlib.Lists.List.Forall_forall. intros t Ht.
    apply repeat_spec in Ht. subst t. vm_compute. reflexivity. }
  assert (Hzero : _msgs_in_bucket s = 0) by reflexivity.
  assert (Hlen : (length ts <= 60)%nat) by (vm_compute; lia).
  destruct (ratelimit_sixty_then_deny s ts (1730000010 # 1) Hminute Hzero Hlen)
    as (Hall & Hcount & Hdeny & _).
  split; [exact Hall |]. split; [exact Hcount |].
  apply Hdeny; vm_compute; reflexivity.
Defined.

Lemma rate_counter_bounded_witness :
  let s := snd (ratelimit_ok (1730000005 # 1) (rate_init (1730000000 # 1))) in
  rate_reachable s /\ _msgs_in_bucket s <= RATE_LIMIT_PER_MIN.
Proof.
  intros s.
  assert (Hreach : rate_reachable s) by (apply reach_call, reach_init).
  split; [exact Hreach |].
  exact (proj1 (rate_counter_bounded s Hreach)).
Defined.

End RateLimiter.

(** ** The monad and the note store *)

Section Store.

Context `{Storage}.

Lemma save_mem_run (d : document) (w : world) :
  save_mem d w =
    (Ok tt,
     {| mem := mem w; rate := rate w;
        disk := <[MEM_PATH := json_dump d]>
                  (delete (MEM_PATH ++ lit ".tmp")
                     (<[MEM_PATH ++ lit ".tmp" := json_dump d]> (disk w)));
        io_log := io_log w
                  ++ [FileWrite (MEM_PATH ++ lit ".tmp") (json_dump d)]
                  ++ [FileReplace (MEM_PATH ++ lit ".tmp") MEM_PATH] |}).
Proof.
  unfold save_mem, bind, file_write, os_replace. cbn [disk mem rate io_log].
  rewrite lookup_insert_eq. rewrite <- app_assoc. reflexivity.
Qed.

Lemma load_mem_stored (now : Q) (fs : gmap (list N) (list N)) (d : document) :
  fs !! MEM_PATH = Some (json_dump d) ->
  json_load (json_dump d) = Some d ->
  load_mem now fs = d.
Proof. intros Hfile Hcodec. unfold load_mem. now rewrite Hfile, Hcodec. Qed.

(** C9: once [save_mem doc] has run, in whatever world, [load_mem] gives
    back [doc], the same notes in the same order and the same metrics,
    provided the codec reads back what it wrote for [doc], as [json.load]
    does with the output of [json.dump]. *)
Theorem save_mem_load_mem (doc : document) (w : world) (now : Q)
    (Hcodec : json_load (json_dump doc) = Some doc) :
  fst (save_mem doc w) = Ok tt /\
  load_mem now (disk (snd (save_mem doc w))) = doc /\
  notes (load_mem now (disk (snd (save_mem doc w)))) = notes doc /\
  metrics (load_mem now (disk (snd (save_mem doc w)))) = metrics doc.
Proof.
  rewrite save_mem_run. cbn [fst snd disk].
  assert (Hload : load_mem now
            (<[MEM_PATH := json_dump doc]>
               (delete (MEM_PATH ++ lit ".tmp")
                  (<[MEM_PATH ++ lit ".tmp" := json_dump doc]> (disk w)))) = doc).
  { apply load_mem_stored; [apply lookup_insert_eq | exact Hcodec]. }
  rewrite Hload. auto.
Qed.

End Store.

Lemma save_mem_load_mem_witness :
  @json_load plain_storage (@json_dump plain_storage sample_doc) = Some sample_doc /\
  @load_mem plain_storage 0
    (disk (snd (@save_mem plain_storage sample_doc sample_world))) = sample_doc.
Proof.
  assert (Hcodec : @json_load plain_storage (@json_dump plain_storage sample_doc)
                   = Some sample_doc) by (vm_compute; reflexivity).
  split; [exact Hcodec |].
  exact (proj1 (proj2 (@save_mem_load_mem plain_storage sample_doc sample_world 0 Hcodec))).
Defined.

(** ** The calculator *)

Section Calc.

Context {I : Interpreter}.

Lemma sanitize_allowed (expr : str) : forallb calc_allowed (sanitize expr) = true.
Proof.
  unfold sanitize. induction expr as [| c expr IH]; [reflexivity |].
  cbn [List.filter]. destruct (calc_allowed c) eqn:Hc; [| exact IH].
  cbn [forallb]. now rewrite Hc, IH.
Qed.

Lemma sanitize_In (expr : str) (c : N) :
  In c (sanitize expr) <-> In c expr /\ calc_allowed c = true.
Proof. unfold sanitize. apply filter_In. Qed.

Lemma sanitize_app (a b : str) : sanitize (a ++ b) = sanitize a ++ sanitize b.
Proof. unfold sanitize. apply List.filter_app. Qed.

Lemma sanitize_idempotent (expr : str) : sanitize (sanitize expr) = sanitize expr.
Proof.
  unfold sanitize. induction expr as [| c expr IH]; [reflexivity |].
  cbn [List.filter]. destruct (calc_allowed c) eqn:Hc; [| exact IH].
  cbn [List.filter]. now rewrite Hc, IH.
Qed.

Lemma tool_calc_success (expr : str) (v : value) (shown : list N) :
  py_eval (sanitize expr) = Ok v -> py_format v = Ok shown ->
  tool_calc expr = Ok (sanitize expr ++ lit " = " ++ shown).
Proof. intros He Hf. unfold tool_calc. now rewrite He, Hf. Qed.

Lemma tool_calc_eval_error (expr : str) (e : exn) :
  py_eval (sanitize expr) = Raise e -> is_Exception (exn_class e) = true ->
  tool_calc expr = Ok (lit "Calc error: " ++ exn_str e).
Proof.
  intros He Hc. unfold tool_calc, try_except_Exception. now rewrite He, Hc.
Qed.


(** What escapes is exactly what [except Exception] does not catch. *)
Lemma tool_calc_escape (expr : str) (e : exn) :
  py_eval (sanitize expr) = Raise e -> is_Exception (exn_class e) = false ->
  tool_calc expr = Raise e.
Proof.
  intros He Hc. unfold tool_calc, try_except_Exception. now rewrite He, Hc.
Qed.

Lemma tool_calc_depends_on_sanitised (J : Interpreter) :
  agree_on_sanitised I J -> forall expr, @tool_calc I expr = @tool_calc J expr.
Proof.
  intros Hagree expr. unfold tool_calc.
  specialize (Hagree (sanitize expr) (sanitize_allowed expr)).
  destruct (@py_eval I (sanitize expr)) as [v | e],
           (@py_eval J (sanitize expr)) as [v' | e']; try contradiction.
  - now rewrite Hagree.
  - now subst e'.
Qed.



Lemma tool_calc_arith_error (expr : str) (a : arith_error) :
  computes_int_arith I ->
  int_arith (sanitize expr) = Some (inl a) ->
  exists msg, tool_calc expr = Ok (lit "Calc error: " ++ msg).
Proof.
  intros (_ & Herr & _) Harith.
  destruct (Herr _ _ Harith) as [msg Hmsg].
  exists msg. rewrite (tool_calc_eval_error _ _ Hmsg); [reflexivity |].
  destruct a; reflexivity.
Qed.


(** C4, as the code has it: the sanitiser keeps, in order, exactly the
    characters that are a digit, one of + - * / ( ) . or the space character
    U+0020 (tabs, line feeds and all other white space are removed); only
    the sanitised text reaches the evaluator; and on success the result is
    the sanitised text, " = " and the formatted value. *)
Theorem tool_calc_sanitized_result :
  (forall expr, sanitize expr = List.filter calc_allowed expr) /\
  (forall c, calc_allowed c = true <->
     (48 <= c <= 57)%N \/ In c [43; 45; 42; 47; 40; 41; 46; 32]%N) /\
  (forall expr c, In c (sanitize expr) <-> In c expr /\ calc_allowed c = true) /\
  (forall expr, tool_calc (sanitize expr) = tool_calc expr) /\
  (forall J : Interpreter, agree_on_sanitised I J ->
     forall expr, @tool_calc I expr = @tool_calc J expr) /\
  (forall expr v shown, py_eval (sanitize expr) = Ok v -> py_format v = Ok shown ->
     tool_calc expr = Ok (sanitize expr ++ lit " = " ++ shown)).
Proof.
  split; [reflexivity |].
  split.
  { intros c. unfold calc_allowed, is_digit. cbn [existsb In].
    rewrite !orb_true_iff, andb_true_iff, !N.leb_le, !N.eqb_eq.
    intuition (subst; auto); try discriminate. }
  split; [apply sanitize_In |].
  split.
  { intros expr. unfold tool_calc. now rewrite sanitize_idempotent. }
  split; [apply tool_calc_depends_on_sanitised |].
  intros expr v shown. apply tool_calc_success.
Qed.

End Calc.


Lemma int_interpreter_computes : computes_int_arith int_interpreter.
Proof.
  split; [| split].
  - intros s z Hs. cbn [py_eval int_interpreter int_value]. unfold int_eval.
    now rewrite Hs.
  - intros s a Hs. cbn [py_eval int_interpreter]. unfold int_eval. rewrite Hs.
    destruct a; eexists; reflexivity.
  - intros z Hz. cbn [py_format int_interpreter int_value]. unfold int_format.
    destruct (Z.ltb_spec0 (Z.abs z) (10 ^ 4300)); [reflexivity | contradiction].
Qed.


(** C4, as stated, fails: with a tab between the operands the result shows
    the expression without the tab, whereas a sanitiser keeping all white
    space would have kept it. *)
Lemma tool_calc_drops_tab :
  let expr := [50; 9; 43; 50]%N in
  spec_sanitize expr = expr /\
  @tool_calc int_interpreter expr = Ok (lit "2+2 = 4") /\
  ~ exists shown,
      @tool_calc int_interpreter expr = Ok (spec_sanitize expr ++ lit " = " ++ shown).
Proof.
  intros expr. split; [vm_compute; reflexivity |].
  split; [vm_compute; reflexivity |].
  intros [shown Hshown]. vm_compute in Hshown. discriminate Hshown.
Qed.

Ltac decide_N_tests :=
  repeat match goal with
         | |- context [(?a <=? ?b)%N] =>
             first [ replace (a <=? b)%N with true
                       by (symmetry; apply N.leb_le; lia)
                   | replace (a <=? b)%N with false
                       by (symmetry; apply N.leb_gt; lia) ]
         | |- context [(?a =? ?b)%N] =>
             replace (a =? b)%N with false by (symmetry; apply N.eqb_neq; lia)
         end.

Ltac reassoc :=
  rewrite <- ?app_assoc; cbn [app]; rewrite <- ?app_assoc; reflexivity.

(** ** Case mapping *)

Section CaseMapping.

Implicit Types (s g r : list N) (c p : N).

Lemma run_image_cases (runs : list (N * N * bool * N)) c :
  run_image runs c = c \/
  exists first last alternate image,
    In (first, last, alternate, image) runs /\ (first <= c <= last)%N /\
    run_image runs c = (image + (c - first))%N.
Proof.
  induction runs as [| [[[first last] alternate] image] runs IH]; [now left |].
  cbn [run_image].
  destruct ((first <=? c)%N && (c <=? last)%N
            && (negb alternate || N.even (c - first))) eqn:Hhit.
  - right. exists first, last, alternate, image.
    apply andb_true_iff in Hhit. destruct Hhit as [Hin _].
    apply andb_true_iff in Hin. rewrite !N.leb_le in Hin.
    split; [now left |]. split; [lia | reflexivity].
  - destruct IH as [-> | (f & l & a & i & Hin & Hc & ->)]; [now left |].
    right. exists f, l, a, i. split; [now right | split; [exact Hc | reflexivity]].
Qed.

Lemma clear_of_spaces_sound (first last : N) c :
  clear_of_spaces first last = true -> (first <= c <= last)%N -> is_space c = false.
Proof.
  unfold clear_of_spaces, SPACES. cbn [forallb fst snd].
  rewrite !andb_true_iff, !orb_true_iff, !N.ltb_lt.
  intros Hclear Hc. apply not_true_is_false. unfold is_space.
  rewrite !orb_true_iff, !andb_true_iff, !N.leb_le, !N.eqb_eq. lia.
Qed.

Lemma LOWER_RUNS_clear : forallb run_clear LOWER_RUNS = true.
Proof. vm_compute. reflexivity. Qed.

Lemma LOWER_RUNS_high : forallb run_high LOWER_RUNS = true.
Proof. vm_compute. reflexivity. Qed.

Lemma is_space_letter c :
  (65 <= c <= 122 \/ 192 <= c <= 254)%N -> is_space c = false.
Proof. intros [Hc | Hc]; unfold is_space; decide_N_tests; reflexivity. Qed.

(** Lower-casing neither makes nor unmakes white space. *)
Lemma is_space_lower_char c : is_space (lower_char c) = is_space c.
Proof.
  unfold lower_char. destruct (N.ltb_spec c 256) as [Hlatin | Hhigh].
  - destruct (((65 <=? c)%N && (c <=? 90)%N
               || (192 <=? c)%N && (c <=? 222)%N && negb (c =? 215)%N)) eqn:Hup;
      [| reflexivity].
    assert (Hrange : (65 <= c <= 90 \/ 192 <= c <= 222)%N).
    { apply orb_true_iff in Hup. destruct Hup as [Hup | Hup].
      - apply andb_true_iff in Hup. rewrite !N.leb_le in Hup. lia.
      - apply andb_true_iff in Hup. destruct Hup as [Hup _].
        apply andb_true_iff in Hup. rewrite !N.leb_le in Hup. lia. }
    rewrite !is_space_letter by lia. reflexivity.
  - destruct (run_image_cases LOWER_RUNS c)
      as [-> | (first & last & alt & image & Hin & Hc & ->)]; [reflexivity |].
    pose proof LOWER_RUNS_clear as Hclear. rewrite forallb_forall in Hclear.
    specialize (Hclear _ Hin). cbn in Hclear. apply andb_true_iff in Hclear.
    destruct Hclear as [Hsrc Himg].
    rewrite (clear_of_spaces_sound _ _ _ Hsrc Hc).
    apply (clear_of_spaces_sound _ _ _ Himg). lia.
Qed.

Lemma cmd_letter_cases p :
  cmd_letter p = true ->
  (p = 97 \/ p = 98 \/ p = 99 \/ p = 101 \/ p = 108 \/ p = 109 \/ p = 114)%N.
Proof.
  unfold cmd_letter. cbn [existsb]. rewrite !orb_true_iff, !N.eqb_eq.
  intuition discriminate.
Qed.

(** Only an ASCII letter lower-cases to a letter of a command word. *)
Lemma lower_char_cmd_letter c p :
  lower_char c = p -> cmd_letter p = true ->
  plain c = true /\ is_space c = false /\ (c = p \/ (c + 32)%N = p).
Proof.
  intros Hlow Hp. apply cmd_letter_cases in Hp.
  unfold lower_char in Hlow. destruct (N.ltb_spec c 256) as [Hlatin | Hhigh].
  - assert (Hc : (c = p \/ (c + 32)%N = p)).
    { destruct (((65 <=? c)%N && (c <=? 90)%N
                 || (192 <=? c)%N && (c <=? 222)%N && negb (c =? 215)%N));
        [now right | now left]. }
    split; [| split; [| exact Hc]].
    + unfold plain. apply andb_true_iff.
      split; apply negb_true_iff, N.eqb_neq; lia.
    + apply is_space_letter. lia.
  - exfalso.
    destruct (run_image_cases LOWER_RUNS c)
      as [Hsame | (first & last & alt & image & Hin & Hc & Himg)].
    + rewrite Hsame in Hlow. lia.
    + pose proof LOWER_RUNS_high as Hhighs. rewrite forallb_forall in Hhighs.
      specialize (Hhighs _ Hin). cbn in Hhighs.
      rewrite Himg in Hlow.
      apply andb_true_iff in Hhighs. destruct Hhighs as [_ Himage].
      apply orb_true_iff in Himage. destruct Himage as [Himage | Hsingle].
      * apply N.leb_le in Himage. lia.
      * apply andb_true_iff in Hsingle. destruct Hsingle as [Hone Hik].
        apply N.eqb_eq in Hone. apply orb_true_iff in Hik.
        rewrite !N.eqb_eq in Hik. lia.
Qed.

Lemma lower_at_plain (before after : list N) c :
  plain c = true -> lower_at before c after = [lower_char c].
Proof.
  unfold plain, lower_at. intros Hc. apply andb_true_iff in Hc.
  destruct Hc as [Hs Hi]. apply negb_true_iff in Hs, Hi. now rewrite Hs, Hi.
Qed.

(** A stretch of plain code points is lower-cased one by one, whatever is
    around it. *)
Lemma lower_from_plain g : forall before r,
  Forall (fun c => plain c = true) g ->
  lower_from before (g ++ r)
    = List.map lower_char g ++ lower_from (rev g ++ before) r.
Proof.
  induction g as [| c g IH]; intros before r Hall; [reflexivity |].
  inversion Hall as [| ? ? Hc Hg]; subst.
  cbn [app lower_from List.map rev]. rewrite (lower_at_plain _ _ _ Hc).
  rewrite IH by exact Hg. cbn [app]. now rewrite <- app_assoc.
Qed.

Lemma lower_plain g :
  Forall (fun c => plain c = true) g -> lower g = List.map lower_char g.
Proof.
  intros Hall. unfold lower.
  rewrite <- (app_nil_r g) at 1. rewrite lower_from_plain by exact Hall.
  cbn [lower_from]. now rewrite app_nil_r.
Qed.

Lemma lower_at_nonempty (before after : list N) c : lower_at before c after <> [].
Proof.
  unfold lower_at. destruct (c =? 931)%N; [discriminate |].
  destruct (c =? 304)%N; discriminate.
Qed.

Lemma lower_from_nil s : forall before, lower_from before s = [] -> s = [].
Proof.
  destruct s as [| c s]; intros before Hnil; [reflexivity |].
  cbn [lower_from] in Hnil. apply app_eq_nil in Hnil.
  destruct Hnil as [Hnil _]. now apply lower_at_nonempty in Hnil.
Qed.

(** Where the lower-cased text starts with a word of command letters, the
    text starts with plain code points that lower-case to it one by one. *)
Lemma is_prefix_lower_split (name : list N) : forall before s,
  Forall (fun p => cmd_letter p = true) name ->
  is_prefix name (lower_from before s) = true ->
  exists g r, s = g ++ r /\ List.map lower_char g = name
              /\ Forall (fun c => plain c = true) g.
Proof.
  induction name as [| p name IH]; intros before s Hname Hpre;
    [exists [], s; repeat split; constructor |].
  inversion Hname as [| ? ? Hp Hrest]; subst.
  destruct s as [| c s]; [discriminate |]. cbn [lower_from] in Hpre.
  pose proof (cmd_letter_cases p Hp) as Hcases.
  unfold lower_at in Hpre.
  destruct (N.eqb_spec c 931) as [-> | Hsigma].
  { cbn [app is_prefix] in Hpre. apply andb_true_iff in Hpre. destruct Hpre as [Heq _].
    apply N.eqb_eq in Heq. destruct (final_sigma before s); lia. }
  destruct (N.eqb_spec c 304) as [-> | Hdot].
  { cbn [app is_prefix] in Hpre. apply andb_true_iff in Hpre. destruct Hpre as [Heq _].
    apply N.eqb_eq in Heq. lia. }
  cbn [app is_prefix] in Hpre. apply andb_true_iff in Hpre.
  destruct Hpre as [Heq Htail]. apply N.eqb_eq in Heq.
  destruct (IH (c :: before) s Hrest Htail) as (g & r & -> & Hg & Hplain).
  exists (c :: g), r. split; [reflexivity |]. split; [cbn; now rewrite Hg, Heq |].
  constructor; [| exact Hplain].
  unfold plain. apply andb_true_iff. split; apply negb_true_iff, N.eqb_neq; assumption.
Qed.

Lemma commands_cmd_letters (name : list N) :
  In name COMMANDS -> Forall (fun p => cmd_letter p = true) name.
Proof. intros [<- | [<- | [<- | []]]]; repeat constructor. Qed.

Lemma is_prefix_refl s : is_prefix s s = true.
Proof. induction s as [| c s IH]; [reflexivity |]. cbn. now rewrite N.eqb_refl. Qed.

(** A word that lower-cases to a command word is made of ASCII letters. *)
Lemma lower_in_commands g :
  In (lower g) COMMANDS ->
  Forall (fun c => plain c = true) g /\ List.map lower_char g = lower g /\
  Forall (fun c => is_space c = false) g.
Proof.
  intros Hcmd. pose proof (commands_cmd_letters _ Hcmd) as Hletters.
  destruct (is_prefix_lower_split (lower g) [] g Hletters (is_prefix_refl _))
    as (g' & r & Hg & Hmap & Hplain).
  assert (Hr : r = []).
  { pose proof (lower_from_plain g' [] r Hplain) as Hsplit.
    fold (lower (g' ++ r)) in Hsplit. rewrite <- Hg, Hmap in Hsplit.
    rewrite <- (app_nil_r (lower g)) in Hsplit at 1.
    apply app_inv_head in Hsplit. symmetry in Hsplit.
    now apply lower_from_nil in Hsplit. }
  subst r. rewrite app_nil_r in Hg. subst g'.
  split; [exact Hplain |]. split; [exact Hmap |].
  rewrite <- Hmap in Hletters. rewrite Stdlib.Lists.List.Forall_map in Hletters.
  revert Hletters. apply Stdlib.Lists.List.Forall_impl. intros c Hc.
  now destruct (lower_char_cmd_letter c _ eq_refl Hc) as (_ & Hspace & _).
Qed.

(** What a match of a command word under [re.I] has matched. *)
Lemma ci_prefix_sound (name : list N) : forall (s g r : list N),
  Forall (fun p => cmd_letter p = true) name ->
  ci_prefix name s = Some (g, r) ->
  s = g ++ r /\ List.map lower_char g = name /\ Forall (fun c => plain c = true) g.
Proof.
  induction name as [| p name IH]; intros s g r Hname Hm.
  - cbn in Hm. inversion Hm. subst. repeat split; constructor.
  - inversion Hname as [| ? ? Hp Hrest]; subst.
    destruct s as [| c s]; [discriminate |]. cbn [ci_prefix] in Hm.
    destruct (N.eqb_spec (lower_char c) p) as [Hc |]; [| discriminate].
    destruct (ci_prefix name s) as [[g' r'] |] eqn:Hrec; [| discriminate].
    inversion Hm; subst. destruct (IH _ _ _ Hrest Hrec) as (Hs & Hl & Hplain).
    split; [cbn; now rewrite Hs |]. split; [cbn; now rewrite Hl |].
    constructor; [| exact Hplain].
    now destruct (lower_char_cmd_letter c _ eq_refl Hp).
Qed.

Lemma ci_prefix_lower (name : list N) (s g r : list N) :
  In name COMMANDS -> ci_prefix name s = Some (g, r) ->
  s = g ++ r /\ lower g = name.
Proof.
  intros Hin Hm.
  destruct (ci_prefix_sound name s g r (commands_cmd_letters _ Hin) Hm)
    as (Hs & Hl & Hplain).
  split; [exact Hs |]. now rewrite lower_plain.
Qed.

End CaseMapping.

(** ** Dispatcher and entry point *)

Section Agent.

Context {I : Interpreter} {S : Storage}.

Lemma world_eta (w : world) :
  {| mem := mem w; rate := rate w; disk := disk w; io_log := io_log w |} = w.
Proof. now destruct w. Qed.

Lemma ratelimit_ok_m_deny (now : Q) (w : world) :
  fst (ratelimit_ok now (rate w)) = false ->
  ratelimit_ok_m now w = (Ok false, w).
Proof.
  intros Hdeny. unfold ratelimit_ok_m.
  pose proof (ratelimit_ok_false_unchanged now (rate w) Hdeny) as Hsame.
  destruct (ratelimit_ok now (rate w)) as [ok r]. cbn [fst snd] in *.
  subst ok r. now rewrite world_eta.
Qed.

(** C10: when the limiter refuses, [improve] answers with the rate-limit
    text and the world is exactly as before: the memory document (notes and
    message count), the disk and the record of file operations are
    untouched, so nothing was saved. *)
Theorem improve_rate_limited (clk : clock) (message_text : str) (w : world)
    (Hdeny : fst (ratelimit_ok (time_time clk) (rate w)) = false) :
  fst (improve clk message_text w) = Ok RATE_LIMITED /\
  snd (improve clk message_text w) = w /\
  notes (mem (snd (improve clk message_text w))) = notes (mem w) /\
  messages (metrics (mem (snd (improve clk message_text w))))
    = messages (metrics (mem w)) /\
  disk (snd (improve clk message_text w)) = disk w /\
  io_log (snd (improve clk message_text w)) = io_log w.
Proof.
  assert (Hrun : improve clk message_text w = (Ok RATE_LIMITED, w)).
  { unfold improve, bind. now rewrite (ratelimit_ok_m_deny _ _ Hdeny). }
  rewrite Hrun. cbn [fst snd]. repeat split.
Qed.

Lemma first_match_Some {A B} (f : A -> option B) (l : list A) (b : B) :
  first_match f l = Some b -> exists x, In x l /\ f x = Some b.
Proof.
  induction l as [| x l IH]; [discriminate |]. cbn [first_match].
  destruct (f x) eqn:Hx.
  - intros Hb. inversion Hb; subst. exists x. split; [now left | exact Hx].
  - intros Hb. destruct (IH Hb) as (y & Hy & Hfy). exists y. split; [now right | exact Hfy].
Qed.

(** Group 1 of a match is always one of the three command words. *)
Lemma re_match_command_known (s g1 arg : list N) :
  re_match_command s = Some (g1, arg) ->
  lower g1 = lit "calc" \/ lower g1 = lit "remember" \/ lower g1 = lit "recall".
Proof.
  unfold re_match_command. destruct s as [| c s1]; [discriminate |].
  destruct (N.eqb_spec c 47) as [-> | Hne].
  2:{ destruct c as [| p]; [discriminate |].
      do 6 (destruct p as [p | p |]; try discriminate). now elim Hne. }
  intros Hm. apply first_match_Some in Hm. destruct Hm as (name & Hin & Hname).
  destruct (ci_prefix name s1) as [[g rest] |] eqn:Hpre; [| discriminate].
  apply first_match_Some in Hname. destruct Hname as (r & _ & Hr).
  destruct (dot_star_end r); [| discriminate]. inversion Hr; subst.
  apply (ci_prefix_lower name) in Hpre; [| exact Hin]. destruct Hpre as [_ Hl].
  cbn [In COMMANDS] in Hin. intuition congruence.
Qed.

(** The last branch of [try_tools] is dead: no message is ever answered
    with "Unknown command". *)
Lemma try_tools_never_unknown (clk : clock) (message_text : str) (w : world) :
  try_tools clk message_text w = (Ok None, w) \/
  exists g1 arg, re_match_command (strip message_text) = Some (g1, arg) /\
    (try_tools clk message_text w
       = (out <- lift_outcome (tool_calc arg) ;; ret (Some out)) w \/
     try_tools clk message_text w
       = (out <- tool_remember clk arg ;; ret (Some out)) w \/
     try_tools clk message_text w
       = (out <- tool_recall arg ;; ret (Some out)) w).
Proof.
  unfold try_tools.
  destruct (re_match_command (strip message_text)) as [[g1 arg] |] eqn:Hm;
    [| now left].
  right. exists g1, arg. split; [reflexivity |].
  destruct (re_match_command_known _ _ _ Hm) as [-> | [-> | ->]]; cbn; auto.
Qed.

Lemma compose_run (message_text : str) (w : world) :
  fst (compose message_text w)
    = Ok (lit "[nanda] " ++ respond message_text ++ memory_hint (notes (mem w))).
Proof.
  unfold compose, count_message, bind, get_mem, set_mem, ret. cbv beta iota.
  cbn [mem]. rewrite save_mem_run. reflexivity.
Qed.

Lemma improve_fall_through (clk : clock) (message_text : str) (w : world) :
  fst (ratelimit_ok (time_time clk) (rate w)) = true ->
  re_match_command (strip message_text) = None ->
  fst (improve clk message_text w)
    = Ok (lit "[nanda] " ++ respond message_text ++ memory_hint (notes (mem w))).
Proof.
  intros Hadmit Hnomatch.
  unfold improve, bind, ratelimit_ok_m, try_tools.
  destruct (ratelimit_ok (time_time clk) (rate w)) as [ok r] eqn:Hrl.
  cbn [fst] in Hadmit. subst ok. cbn [negb]. rewrite Hnomatch. unfold ret.
  now rewrite compose_run.
Qed.

(** C2, at a failing input: a slash followed by the alphabetic word foo,
    which is none of the three commands, gets the no-command result and is
    answered by the fall-through path, not by an unknown-command message. *)
Theorem try_tools_foo_is_no_command (clk : clock) (w : world) :
  re_match_command (strip (lit "/foo")) = None /\
  try_tools clk (lit "/foo") w = (Ok None, w) /\
  fst (improve clk (lit "/foo")
         {| mem := mem w; rate := rate_init (time_time clk);
            disk := disk w; io_log := io_log w |})
    = Ok (lit "[nanda] /foo" ++ memory_hint (notes (mem w))).
Proof.
  split; [reflexivity |]. split; [reflexivity |].
  rewrite improve_fall_through;
    [reflexivity | apply ratelimit_ok_init | reflexivity].
Qed.

End Agent.

Lemma improve_rate_limited_witness :
  fst (ratelimit_ok (time_time sample_clock) (rate full_world)) = false /\
  fst (@improve int_interpreter plain_storage sample_clock (lit "/remember buy milk") full_world) = Ok RATE_LIMITED /\
  snd (@improve int_interpreter plain_storage sample_clock (lit "/remember buy milk") full_world) = full_world.
Proof.
  assert (Hdeny : fst (ratelimit_ok (time_time sample_clock) (rate full_world)) = false)
    by (vm_compute; reflexivity).
  split; [exact Hdeny |].
  destruct (@improve_rate_limited int_interpreter plain_storage sample_clock (lit "/remember buy milk") full_world Hdeny)
    as (Hout & Hsame & _).
  split; [exact Hout | exact Hsame].
Defined.

(** ** Facts about the string primitives *)

Section Strings.

Implicit Types (s t u v : list N) (c : N).

(** [lstrip] drops a prefix and stops at a character that is not white
    space. *)
Lemma lstrip_head s c t : lstrip s = c :: t -> is_space c = false.
Proof.
  induction s as [| a s IH]; [discriminate |]. cbn [lstrip].
  destruct (is_space a) eqn:Ha; [exact IH |]. intros Heq. now inversion Heq; subst.
Qed.

Lemma lstrip_suffix s : exists a, s = a ++ lstrip s.
Proof.
  induction s as [| c s [a IH]]; [now exists [] |]. cbn [lstrip].
  destruct (is_space c); [| now exists []].
  exists (c :: a). cbn. now rewrite <- IH.
Qed.

Lemma rstrip_prefix s : exists b, s = rstrip s ++ b.
Proof.
  unfold rstrip. destruct (lstrip_suffix (rev s)) as [a Ha].
  exists (rev a). rewrite <- rev_app_distr, <- Ha. now rewrite rev_involutive.
Qed.

Lemma lstrip_app_word u c t : is_space c = false ->
  lstrip (u ++ c :: t) = lstrip u ++ c :: t.
Proof.
  intros Hc. induction u as [| a u IH].
  - cbn. now rewrite Hc.
  - cbn [app lstrip]. destruct (is_space a); [exact IH | reflexivity].
Qed.

Lemma rstrip_app_word u c t : is_space c = false ->
  rstrip (u ++ c :: t) = u ++ c :: rstrip t.
Proof.
  intros Hc. unfold rstrip.
  replace (rev (u ++ c :: t)) with (rev t ++ c :: rev u)
    by (rewrite rev_app_distr; cbn [rev]; now rewrite <- app_assoc).
  rewrite lstrip_app_word by exact Hc.
  rewrite rev_app_distr. cbn [rev]. rewrite rev_involutive.
  now rewrite <- app_assoc.
Qed.

(** A word that begins and ends with a character that is not white space
    survives [strip], wherever it sits. *)
Lemma strip_keeps_word u m v a b :
  is_space a = false -> is_space b = false ->
  exists u' v', strip (u ++ (a :: m ++ [b]) ++ v) = u' ++ (a :: m ++ [b]) ++ v'.
Proof.
  intros Ha Hb. unfold strip. cbn [app]. rewrite lstrip_app_word by exact Ha.
  exists (lstrip u), (rstrip v).
  replace (lstrip u ++ a :: (m ++ [b]) ++ v)
    with ((lstrip u ++ a :: m) ++ b :: v)
    by reassoc.
  rewrite rstrip_app_word by exact Hb. reassoc.
Qed.

Lemma strip_keeps_single u v a :
  is_space a = false -> exists u' v', strip (u ++ [a] ++ v) = u' ++ [a] ++ v'.
Proof.
  intros Ha. unfold strip. cbn [app]. rewrite lstrip_app_word by exact Ha.
  exists (lstrip u), (rstrip v). now rewrite rstrip_app_word.
Qed.

(** The shape of a stripped text: empty, one character, or a word with
    both ends not white space; and where it sits in the original. *)
Lemma strip_shape s :
  exists pre post, s = pre ++ strip s ++ post /\
    (strip s = [] \/
     (exists a, strip s = [a] /\ is_space a = false) \/
     (exists a m b, strip s = a :: m ++ [b]
                    /\ is_space a = false /\ is_space b = false)).
Proof.
  destruct (lstrip_suffix s) as [pre Hpre].
  destruct (rstrip_prefix (lstrip s)) as [post Hpost].
  exists pre, post. fold (strip s) in Hpost.
  split; [now rewrite <- Hpost |].
  destruct (strip s) as [| a rest] eqn:Hstrip; [now left |]. right.
  assert (Ha : is_space a = false).
  { destruct (lstrip s) as [| c t] eqn:Hl; [now destruct post |].
    cbn in Hpost. inversion Hpost; subst. eapply lstrip_head; eassumption. }
  destruct (rev rest) as [| b m'] eqn:Hrev.
  - left. exists a. split; [| exact Ha].
    apply (f_equal (@rev N)) in Hrev. rewrite rev_involutive in Hrev. now subst.
  - right. exists a, (rev m'), b.
    apply (f_equal (@rev N)) in Hrev. rewrite rev_involutive in Hrev. cbn in Hrev.
    split; [now subst |]. split; [exact Ha |].
    unfold strip, rstrip in Hstrip.
    apply (f_equal (@rev N)) in Hstrip. rewrite rev_involutive in Hstrip.
    subst rest. cbn [rev] in Hstrip. rewrite rev_app_distr in Hstrip.
    cbn in Hstrip. eapply lstrip_head; eassumption.
Qed.

(** A text within a text: its stripped form is empty or lies within the
    stripped form of the whole. *)
Lemma strip_within s t :
  (exists pre post, t = pre ++ s ++ post) ->
  strip s = [] \/ exists pre' post', strip t = pre' ++ strip s ++ post'.
Proof.
  intros (pre & post & ->).
  destruct (strip_shape s) as (a0 & b0 & Hs & Hshape).
  destruct Hshape as [Hnil | [(a & Hone & Ha) | (a & m & b & Hword & Ha & Hb)]];
    [now left | right | right].
  - rewrite Hone in *. rewrite Hs.
    destruct (strip_keeps_single (pre ++ a0) (b0 ++ post) a Ha) as (u' & v' & Hk).
    exists u', v'. rewrite <- Hk. f_equal. reassoc.
  - rewrite Hword in *. rewrite Hs.
    destruct (strip_keeps_word (pre ++ a0) m (b0 ++ post) a b Ha Hb) as (u' & v' & Hk).
    exists u', v'. rewrite <- Hk. f_equal. reassoc.
Qed.

Lemma is_prefix_app s t : is_prefix s (s ++ t) = true.
Proof.
  induction s as [| c s IH]; [reflexivity |]. cbn. now rewrite N.eqb_refl.
Qed.

Lemma contains_within needle pre post :
  contains needle (pre ++ needle ++ post) = true.
Proof.
  induction pre as [| c pre IH].
  - cbn [app]. destruct (needle ++ post) eqn:Heq;
      cbn [contains]; rewrite <- ?Heq, is_prefix_app; reflexivity.
  - cbn [app contains]. rewrite IH. apply orb_true_r.
Qed.

(** White space is neither cased nor case-ignorable, and it is plain. *)
Lemma in_ranges_space (ranges : list (N * N)) c :
  forallb range_clear ranges = true -> is_space c = true ->
  in_ranges ranges c = false.
Proof.
  intros Hclear Hc. apply not_true_is_false. unfold in_ranges. intros Hin.
  apply existsb_exists in Hin. destruct Hin as (r & Hr & Hbounds).
  rewrite forallb_forall in Hclear. specialize (Hclear r Hr).
  apply andb_true_iff in Hbounds. rewrite !N.leb_le in Hbounds.
  rewrite (clear_of_spaces_sound _ _ c Hclear) in Hc by lia. discriminate.
Qed.

Lemma CASED_clear : forallb range_clear CASED = true.
Proof. vm_compute. reflexivity. Qed.

Lemma CASE_IGNORABLE_clear : forallb range_clear CASE_IGNORABLE = true.
Proof. vm_compute. reflexivity. Qed.

Lemma space_not_cased c : is_space c = true -> cased c = false.
Proof. apply in_ranges_space, CASED_clear. Qed.

Lemma space_not_ignorable c : is_space c = true -> case_ignorable c = false.
Proof. apply in_ranges_space, CASE_IGNORABLE_clear. Qed.

Lemma space_plain c : is_space c = true -> plain c = true.
Proof.
  intros Hc. unfold plain.
  destruct (N.eqb_spec c 931) as [-> | _]; [vm_compute in Hc; discriminate |].
  destruct (N.eqb_spec c 304) as [-> | _]; [vm_compute in Hc; discriminate |].
  reflexivity.
Qed.

Lemma spaces_plain s :
  Forall (fun c => is_space c = true) s -> Forall (fun c => plain c = true) s.
Proof. apply Stdlib.Lists.List.Forall_impl. exact space_plain. Qed.

Lemma spaces_lower s :
  Forall (fun c => is_space c = true) s ->
  Forall (fun c => is_space c = true) (List.map lower_char s).
Proof.
  intros Hs. rewrite Stdlib.Lists.List.Forall_map.
  revert Hs. apply Stdlib.Lists.List.Forall_impl. intros c.
  now rewrite is_space_lower_char.
Qed.

(** The final-sigma test looks at its two sides separately, and on each
    side only as far as the first code point that is not case-ignorable. *)
Lemma final_sigma_split (before after : list N) :
  final_sigma before after = sigma_before before && sigma_after after.
Proof.
  unfold final_sigma, sigma_before, sigma_after.
  now destruct (skip_ignorable before).
Qed.

Lemma skip_ignorable_app s t :
  skip_ignorable (s ++ t)
    = match skip_ignorable s with Some c => Some c | None => skip_ignorable t end.
Proof.
  induction s as [| c s IH]; [reflexivity |]. cbn [app skip_ignorable].
  now destruct (case_ignorable c).
Qed.

Lemma sigma_before_cons c (before before' : list N) :
  sigma_before before = sigma_before before' ->
  sigma_before (c :: before) = sigma_before (c :: before').
Proof.
  unfold sigma_before. cbn [skip_ignorable]. now destruct (case_ignorable c).
Qed.

Lemma sigma_after_app s (after after' : list N) :
  sigma_after after = sigma_after after' ->
  sigma_after (s ++ after) = sigma_after (s ++ after').
Proof.
  unfold sigma_after. rewrite !skip_ignorable_app. now destruct (skip_ignorable s).
Qed.

Lemma sigma_before_spaces s :
  Forall (fun c => is_space c = true) s -> sigma_before s = sigma_before [].
Proof.
  intros Hs. destruct Hs as [| c s Hc _]; [reflexivity |].
  unfold sigma_before. cbn [skip_ignorable].
  now rewrite (space_not_ignorable c Hc), (space_not_cased c Hc).
Qed.

Lemma sigma_after_spaces s :
  Forall (fun c => is_space c = true) s -> sigma_after s = sigma_after [].
Proof.
  intros Hs. destruct Hs as [| c s Hc _]; [reflexivity |].
  unfold sigma_after. cbn [skip_ignorable].
  now rewrite (space_not_ignorable c Hc), (space_not_cased c Hc).
Qed.

Lemma lower_at_context c (before before' after after' : list N) :
  sigma_before before = sigma_before before' ->
  sigma_after after = sigma_after after' ->
  lower_at before c after = lower_at before' c after'.
Proof.
  intros Hb Ha. unfold lower_at. now rewrite !final_sigma_split, Hb, Ha.
Qed.

Lemma lower_in_context s : forall (before before' after after' : list N),
  sigma_before before = sigma_before before' ->
  sigma_after after = sigma_after after' ->
  lower_in before s after = lower_in before' s after'.
Proof.
  induction s as [| c s IH]; intros before before' after after' Hb Ha;
    [reflexivity |].
  cbn [lower_in]. f_equal.
  - apply lower_at_context; [exact Hb | now apply sigma_after_app].
  - apply IH; [now apply sigma_before_cons | exact Ha].
Qed.

Lemma lower_in_nil s : forall (before : list N),
  lower_in before s [] = lower_from before s.
Proof.
  induction s as [| c s IH]; intros before; [reflexivity |].
  cbn [lower_in lower_from]. now rewrite app_nil_r, IH.
Qed.

Lemma lower_from_app s : forall (before : list N) t,
  lower_from before (s ++ t)
    = lower_in before s t ++ lower_from (rev s ++ before) t.
Proof.
  induction s as [| c s IH]; intros before t; [reflexivity |].
  cbn [app lower_from lower_in rev]. rewrite IH. reassoc.
Qed.

(** A stretch without capital sigma is lower-cased one code point at a
    time, whatever surrounds it. *)
Lemma lower_in_no_sigma s : forall (before after : list N),
  no_sigma s = true -> lower_in before s after = flat_map lower_chunk s.
Proof.
  induction s as [| c s IH]; intros before after Hs; [reflexivity |].
  cbn [no_sigma forallb] in Hs. apply andb_true_iff in Hs.
  destruct Hs as [Hc Hs]. apply negb_true_iff in Hc.
  cbn [lower_in flat_map]. rewrite (IH _ _ Hs).
  unfold lower_at, lower_chunk. now rewrite Hc.
Qed.

Lemma lower_in_lower s (before after : list N) :
  no_sigma s = true -> lower_in before s after = lower s.
Proof.
  intros Hs. unfold lower. rewrite <- lower_in_nil.
  now rewrite !lower_in_no_sigma.
Qed.

(** A text without capital sigma shows lower-cased in the lower-cased form
    of every text in which it occurs. *)
Lemma lower_within s pre post :
  no_sigma s = true ->
  exists pre' post', lower (pre ++ s ++ post) = pre' ++ lower s ++ post'.
Proof.
  intros Hs. unfold lower at 1. rewrite !lower_from_app.
  rewrite (lower_in_lower s _ _ Hs). eauto.
Qed.

(** What [lstrip] and [rstrip] drop, and where they stop. *)
Lemma lstrip_cases s :
  exists sp, Forall (fun c => is_space c = true) sp /\ s = sp ++ lstrip s /\
             (lstrip s = [] \/ exists c t, lstrip s = c :: t /\ is_space c = false).
Proof.
  induction s as [| c s (sp & Hsp & Hs & Hstop)].
  - exists []. split; [constructor |]. split; [reflexivity | now left].
  - cbn [lstrip]. destruct (is_space c) eqn:Hc.
    + exists (c :: sp). split; [now constructor |].
      split; [cbn; now rewrite <- Hs | exact Hstop].
    + exists []. split; [constructor |]. split; [reflexivity |]. right. eauto.
Qed.

Lemma rstrip_cases s :
  exists sp, Forall (fun c => is_space c = true) sp /\ s = rstrip s ++ sp /\
             (rstrip s = [] \/ exists t c, rstrip s = t ++ [c] /\ is_space c = false).
Proof.
  destruct (lstrip_cases (rev s)) as (sp & Hsp & Hs & Hstop).
  exists (rev sp). split; [now apply Stdlib.Lists.List.Forall_rev |].
  unfold rstrip. split.
  - rewrite <- rev_app_distr, <- Hs. now rewrite rev_involutive.
  - destruct Hstop as [-> | (c & t & -> & Hc)]; [now left |].
    right. exists (rev t), c. split; [reflexivity | exact Hc].
Qed.

Lemma lstrip_spaces_app s t :
  Forall (fun c => is_space c = true) s -> lstrip (s ++ t) = lstrip t.
Proof.
  induction 1 as [| c s Hc _ IH]; [reflexivity |]. cbn [app lstrip]. now rewrite Hc.
Qed.

Lemma rstrip_app_spaces s t :
  Forall (fun c => is_space c = true) t -> rstrip (s ++ t) = rstrip s.
Proof.
  intros Ht. unfold rstrip. rewrite rev_app_distr.
  rewrite lstrip_spaces_app by now apply Stdlib.Lists.List.Forall_rev.
  reflexivity.
Qed.

Lemma rstrip_fixed s c : is_space c = false -> rstrip (s ++ [c]) = s ++ [c].
Proof. intros Hc. now rewrite rstrip_app_word. Qed.

(** Lower-casing keeps the ends of a text clear of white space. *)
Lemma lower_at_head (before after : list N) c :
  is_space c = false ->
  exists d rest, lower_at before c after = d :: rest /\ is_space d = false.
Proof.
  intros Hc. unfold lower_at.
  destruct (c =? 931)%N; [destruct (final_sigma before after); eauto |].
  destruct (c =? 304)%N; [eauto |].
  exists (lower_char c), []. now rewrite is_space_lower_char.
Qed.

Lemma lower_at_last (before after : list N) c :
  is_space c = false ->
  exists init d, lower_at before c after = init ++ [d] /\ is_space d = false.
Proof.
  intros Hc. unfold lower_at.
  destruct (c =? 931)%N;
    [destruct (final_sigma before after);
       [now exists [], 962%N | now exists [], 963%N] |].
  destruct (c =? 304)%N; [now exists [105%N], 775%N |].
  exists [], (lower_char c). now rewrite is_space_lower_char.
Qed.

Lemma lower_lstrip s : lower (lstrip s) = lstrip (lower s).
Proof.
  destruct (lstrip_cases s) as (sp & Hsp & Hs & Hstop).
  rewrite Hs at 2. unfold lower at 2.
  rewrite lower_from_plain by now apply spaces_plain.
  rewrite lstrip_spaces_app by now apply spaces_lower.
  rewrite app_nil_r, <- lower_in_nil.
  rewrite (lower_in_context _ (rev sp) [] [] []);
    [| apply sigma_before_spaces; now apply Stdlib.Lists.List.Forall_rev
     | reflexivity].
  rewrite lower_in_nil. fold (lower (lstrip s)).
  destruct Hstop as [-> | (c & t & -> & Hc)]; [reflexivity |].
  unfold lower. cbn [lower_from].
  destruct (lower_at_head [] t c Hc) as (d & rest & -> & Hd).
  cbn [app lstrip]. now rewrite Hd.
Qed.

Lemma lower_rstrip s : lower (rstrip s) = rstrip (lower s).
Proof.
  destruct (rstrip_cases s) as (sp & Hsp & Hs & Hstop).
  rewrite Hs at 2. unfold lower at 2. rewrite lower_from_app.
  rewrite <- (app_nil_r sp) at 2.
  rewrite lower_from_plain by now apply spaces_plain.
  cbn [lower_from]. rewrite app_nil_r.
  rewrite rstrip_app_spaces by now apply spaces_lower.
  rewrite (lower_in_context _ [] [] sp []);
    [| reflexivity | now apply sigma_after_spaces].
  rewrite lower_in_nil. fold (lower (rstrip s)).
  destruct Hstop as [-> | (t & c & -> & Hc)]; [reflexivity |].
  unfold lower. rewrite lower_from_app. cbn [lower_from].
  destruct (lower_at_last (rev t ++ []) [] c Hc) as (init & d & -> & Hd).
  rewrite app_nil_r, app_assoc. now rewrite rstrip_fixed.
Qed.

(** [strip] and [lower] commute. *)
Lemma lower_strip s : lower (strip s) = strip (lower s).
Proof. unfold strip. now rewrite lower_rstrip, lower_lstrip. Qed.

End Strings.

(** ** Remember, recall and the fall-through reply *)

Section Notes.

Context {S : Storage}.

Lemma last_n_length {A} (k : nat) (l : list A) :
  length (last_n k l) = Nat.min k (length l).
Proof. unfold last_n. rewrite List.length_skipn. lia. Qed.

Lemma last_n_suffix {A} (k : nat) (l : list A) :
  exists older, l = older ++ last_n k l.
Proof.
  exists (firstn (length l - k) l). unfold last_n. now rewrite firstn_skipn.
Qed.

Lemma last_n_short {A} (k : nat) (l : list A) :
  (length l <= k)%nat -> last_n k l = l.
Proof.
  intros Hle. unfold last_n. now replace (length l - k)%nat with 0%nat by lia.
Qed.

Lemma last_n_idempotent {A} (k : nat) (l : list A) :
  last_n k (last_n k l) = last_n k l.
Proof. apply last_n_short. rewrite last_n_length. lia. Qed.

Lemma last_n_snoc {A} (k : nat) (l : list A) (x : A) :
  (1 <= k)%nat -> exists older, last_n k (l ++ [x]) = older ++ [x].
Proof.
  intros Hk. unfold last_n. rewrite List.length_app. cbn [length].
  exists (skipn (length l + 1 - k) l).
  rewrite List.skipn_app.
  now replace (length l + 1 - k - length l)%nat with 0%nat by lia.
Qed.

Lemma join_snoc (sep : list N) (parts : list (list N)) (p : list N) :
  exists before, join sep (parts ++ [p]) = before ++ p.
Proof.
  induction parts as [| q parts [before IH]]; [now exists [] |].
  cbn [app join]. destruct (parts ++ [p]) eqn:Heq.
  - now destruct parts.
  - rewrite IH. exists (q ++ sep ++ before). reassoc.
Qed.

Lemma tool_recall_run (query : str) (w : world) :
  tool_recall query w = (Ok (recall_text (notes (mem w)) query), w).
Proof. reflexivity. Qed.

Lemma join_In (sep : list N) (parts : list (list N)) (p : list N) :
  In p parts -> exists before after, join sep parts = before ++ p ++ after.
Proof.
  induction parts as [| p0 parts IH]; [intros [] |].
  intros [-> | Hin].
  - cbn [join]. destruct parts; [exists [], []; now rewrite app_nil_r |].
    exists [], (sep ++ join sep (l :: parts)). reflexivity.
  - destruct (IH Hin) as (before & after & Hj).
    cbn [join]. destruct parts as [| p1 parts]; [destruct Hin |].
    rewrite Hj. exists (p0 ++ sep ++ before), after. reassoc.
Qed.

(** C6: with a query that is empty once trimmed, [tool_recall] lists the
    last five notes of the store (all of them when there are fewer), in
    the order of the store, the newest last, one line for each note (a
    dash, the text of the note and its time stamp in brackets after an at
    sign) under the header line, so that the line of each of these notes
    occurs in the answer; with an empty store it answers
    "No memory found.".  The state is not changed. *)
Theorem tool_recall_empty_query (query : str) (w : world)
    (Hempty : strip query = []) :
  let all := notes (mem w) in
  let line := fun n : note => lit "- " ++ text n ++ lit " (@" ++ ts n ++ lit ")" in
  snd (tool_recall query w) = w /\
  (all = [] -> fst (tool_recall query w) = Ok (lit "No memory found.")) /\
  (all <> [] ->
   fst (tool_recall query w)
     = Ok (lit "Recent memory:" ++ [10%N]
           ++ join [10%N] (List.map line (last_n 5 all))) /\
   forall n, In n (last_n 5 all) ->
     exists before after,
       fst (tool_recall query w) = Ok (before ++ line n ++ after)) /\
  (length (last_n 5 all) <= 5)%nat /\
  length (last_n 5 all) = Nat.min 5 (length all) /\
  exists older, all = older ++ last_n 5 all.
Proof.
  intros all line. rewrite tool_recall_run. cbn [fst snd].
  unfold recall_text. rewrite Hempty. change (lower []) with (@nil N).
  cbv beta iota zeta. fold all.
  split; [reflexivity |].
  split; [intros ->; reflexivity |].
  split.
  { intros Hne. rewrite last_n_idempotent.
    assert (Hout : match last_n 5 all with
                   | [] => lit "No memory found."
                   | _ :: _ => lit "Recent memory:" ++ [10%N]
                               ++ join [10%N] (List.map format_hit (last_n 5 all))
                   end
                   = lit "Recent memory:" ++ [10%N]
                     ++ join [10%N] (List.map line (last_n 5 all))).
    { destruct (last_n 5 all) eqn:Hlast; [| reflexivity].
      exfalso. apply Hne. apply (f_equal (@length note)) in Hlast.
      rewrite last_n_length in Hlast.
      destruct all; [reflexivity | cbn in Hlast; lia]. }
    rewrite Hout. split; [reflexivity |].
    intros n Hn. apply (List.in_map line) in Hn.
    destruct (join_In [10%N] _ _ Hn) as (before & after & ->).
    exists (lit "Recent memory:" ++ [10%N] ++ before), after.
    apply f_equal. reassoc. }
  split; [rewrite last_n_length; lia |].
  split; [apply last_n_length | apply last_n_suffix].
Qed.

Lemma tool_remember_run (clk : clock) (x : str) (w : world) :
  exists w',
    tool_remember clk x w
      = (Ok (lit "Saved: " ++ [8220%N] ++ strip x ++ [8221%N]), w') /\
    notes (mem w')
      = notes (mem w) ++ [{| text := strip x; ts := utcnow_iso clk ++ lit "Z" |}] /\
    metrics (mem w') = metrics (mem w) /\
    rate w' = rate w.
Proof.
  unfold tool_remember, bind, get_mem, set_mem, ret. cbv beta iota. cbn [mem].
  rewrite save_mem_run. eexists. split; [reflexivity |]. cbn. auto.
Qed.

(** What a recall shows when the note remembered last is among the hits:
    the line of that note, at the end. *)
Lemma recall_text_shows_last (older : list note) (item : note) (query : str) :
  lower (strip query) = [] \/
    contains (lower (strip query)) (lower (text item)) = true ->
  exists before,
    recall_text (older ++ [item]) query
      = before ++ lit "- " ++ text item ++ lit " (@" ++ ts item ++ lit ")".
Proof.
  intros Hhit. unfold recall_text.
  set (q := lower (strip query)) in *.
  assert (Hhits : exists pre,
            match q with
            | _ :: _ => List.filter (fun n => contains q (lower (text n))) (older ++ [item])
            | [] => last_n 5 (older ++ [item])
            end = pre ++ [item]).
  { destruct q as [| c q'] eqn:Hq.
    - apply last_n_snoc. lia.
    - destruct Hhit as [Hnil | Hin]; [discriminate |].
      rewrite List.filter_app. cbn [List.filter]. rewrite Hin. eauto. }
  destruct Hhits as [pre ->].
  destruct (last_n_snoc 5 pre item ltac:(lia)) as [shown Hshown].
  rewrite Hshown, List.map_app. cbn [List.map].
  destruct (join_snoc [10%N] (List.map format_hit shown) (format_hit item))
    as [before Hjoin].
  rewrite Hjoin. unfold format_hit.
  destruct (pre ++ [item]) eqn:Hne; [now destruct pre |].
  exists (lit "Recent memory:" ++ [10%N] ++ before).
  reassoc.
Qed.

(** C5, as the code has it: after [tool_remember x], a [tool_recall] with
    [x] itself, with a non-empty [q] without capital sigma that occurs in
    [x], or with a non-empty [q] whose lower-cased form occurs in the
    lower-cased form of [x], returns a text in which the remembered,
    trimmed [x] occurs: the text ends with the line of the new note. *)
Theorem remember_then_recall (clk : clock) (x q : str) (w : world)
    (Hx : x <> []) (Hq : q <> [])
    (Hsub : q = x \/
            (no_sigma q = true /\ exists pre post, x = pre ++ q ++ post) \/
            (exists pre post, lower x = pre ++ lower q ++ post)) :
  exists w1 out head,
    tool_remember clk x w
      = (Ok (lit "Saved: " ++ [8220%N] ++ strip x ++ [8221%N]), w1) /\
    fst (tool_recall q w1) = Ok out /\
    out = head ++ lit "- " ++ strip x ++ lit " (@" ++ utcnow_iso clk ++ lit "Z)" /\
    contains (strip x) out = true.
Proof.
  destruct (tool_remember_run clk x w) as (w1 & Hrun & Hnotes & _).
  assert (Hwithin : exists pre post, lower x = pre ++ lower q ++ post).
  { destruct Hsub as [-> | [(Hplain & pre & post & ->) | Hsub]]; [| | exact Hsub].
    - exists [], []. now rewrite app_nil_r.
    - now apply lower_within. }
  destruct (recall_text_shows_last (notes (mem w))
              {| text := strip x; ts := utcnow_iso clk ++ lit "Z" |} q)
    as (head & Hout).
  { cbn [text]. rewrite !lower_strip.
    destruct (strip_within (lower q) (lower x) Hwithin) as [Hnil | (u & v & Hin)];
      [now left | right].
    rewrite Hin. apply contains_within. }
  cbn [text ts] in Hout.
  exists w1, (head ++ lit "- " ++ strip x ++ lit " (@" ++ utcnow_iso clk ++ lit "Z)"),
         head.
  rewrite tool_recall_run, Hnotes, Hout. cbn [fst snd].
  split; [exact Hrun |].
  split; [apply f_equal; reassoc |].
  split; [reflexivity |].
  replace (head ++ lit "- " ++ strip x ++ lit " (@" ++ utcnow_iso clk ++ lit "Z)")
    with ((head ++ lit "- ") ++ strip x ++ lit " (@" ++ utcnow_iso clk ++ lit "Z)")
    by reassoc.
  apply contains_within.
Qed.

(** C7, as the code has it: a message in which "ignore previous" occurs,
    case ignored, is answered on the fall-through path with the tag
    "[nanda] ", the fixed refusal sentence and the memory hint of the
    current notes; nothing else of the message shows in the answer. *)
Theorem compose_refuses_ignore_previous (message_text : str) (w : world)
    (Hguard : contains (lit "ignore previous") (lower message_text) = true) :
  respond message_text = REFUSAL /\
  fst (compose message_text w)
    = Ok (lit "[nanda] " ++ REFUSAL ++ memory_hint (notes (mem w))) /\
  (notes (mem w) = [] ->
   fst (compose message_text w) = Ok (lit "[nanda] " ++ REFUSAL)) /\
  forall (I : Interpreter) (clk : clock),
    fst (ratelimit_ok (time_time clk) (rate w)) = true ->
    re_match_command (strip message_text) = None ->
    fst (improve clk message_text w)
      = Ok (lit "[nanda] " ++ REFUSAL ++ memory_hint (notes (mem w))).
Proof.
  assert (Hresp : respond message_text = REFUSAL)
    by (unfold respond; now rewrite Hguard).
  split; [exact Hresp |].
  split; [now rewrite compose_run, Hresp |].
  split.
  { intros Hnone. rewrite compose_run, Hresp, Hnone. cbn [memory_hint].
    now rewrite app_nil_r. }
  intros I clk Hadmit Hnomatch.
  now rewrite improve_fall_through, Hresp.
Qed.

End Notes.

Lemma remember_then_recall_witness :
  let x := lit " Buy Milk " in
  let q := lit "milk" in
  lower x = lit " buy " ++ lower q ++ lit " " /\
  exists w1 out head,
    @tool_remember plain_storage sample_clock x sample_world
      = (Ok (lit "Saved: " ++ [8220%N] ++ lit "Buy Milk" ++ [8221%N]), w1) /\
    fst (tool_recall q w1) = Ok out /\
    out = head ++ lit "- Buy Milk (@2024-10-27T03:33:20Z)" /\
    contains (lit "Buy Milk") out = true.
Proof.
  intros x q.
  assert (Hsub : lower x = lit " buy " ++ lower q ++ lit " ")
    by (vm_compute; reflexivity).
  split; [exact Hsub |].
  apply (@remember_then_recall plain_storage sample_clock x q sample_world).
  - discriminate.
  - discriminate.
  - right. right. exists (lit " buy "), (lit " "). exact Hsub.
Defined.

(** C5, as stated, fails: with the two letters capital alpha, capital
    sigma (U+0391 U+03A3) remembered as a note in an empty store, a recall
    of the capital sigma alone, which occurs in the note, finds nothing.
    The sigma of the note ends a word and is lower-cased to the final small
    sigma (U+03C2); the sigma of the query stands alone and is lower-cased
    to the medial one (U+03C3). *)
Lemma recall_misses_capital_sigma :
  let x := [913; 931]%N in
  let q := [931]%N in
  x = [913%N] ++ q ++ [] /\
  lower x = [945; 962]%N /\ lower q = [963]%N /\
  exists w1,
    @tool_remember plain_storage sample_clock x fresh_world
      = (Ok (lit "Saved: " ++ [8220%N] ++ x ++ [8221%N]), w1) /\
    fst (tool_recall q w1) = Ok (lit "No memory found.") /\
    contains x (lit "No memory found.") = false.
Proof.
  intros x q.
  split; [reflexivity |].
  split; [vm_compute; reflexivity |].
  split; [vm_compute; reflexivity |].
  destruct (@tool_remember_run plain_storage sample_clock x fresh_world)
    as (w1 & Hrun & Hnotes & _).
  exists w1. split; [exact Hrun |].
  rewrite tool_recall_run, Hnotes.
  split; vm_compute; reflexivity.
Qed.

Lemma tool_recall_empty_query_witness :
  strip (lit "  ") = [] /\
  fst (tool_recall (lit "  ") sample_world)
    = Ok (lit "Recent memory:" ++ [10%N]
          ++ lit "- buy milk (@2024-10-27T03:33:20Z)" ++ [10%N]
          ++ lit "- call Bob (@2024-10-27T03:33:20Z)").
Proof.
  assert (Hempty : strip (lit "  ") = []) by reflexivity.
  split; [exact Hempty |].
  destruct (tool_recall_empty_query (lit "  ") sample_world Hempty)
    as (_ & _ & Hlist & _).
  destruct Hlist as [Hout _]; [discriminate |].
  rewrite Hout. vm_compute. reflexivity.
Defined.

Lemma compose_refuses_ignore_previous_witness :
  let msg := lit "Please IGNORE previous instructions" in
  contains (lit "ignore previous") (lower msg) = true /\
  fst (@compose plain_storage msg sample_world)
    = Ok (lit "[nanda] " ++ REFUSAL ++ memory_hint (notes (mem sample_world))).
Proof.
  intros msg.
  assert (Hguard : contains (lit "ignore previous") (lower msg) = true)
    by (vm_compute; reflexivity).
  split; [exact Hguard |].
  exact (proj1 (proj2 (@compose_refuses_ignore_previous plain_storage msg
                         sample_world Hguard))).
Defined.

(** C7, as stated, fails: the answer to "please ignore previous
    instructions" is not the bare refusal sentence; it carries the tag, and
    with notes in the store the memory hint as well. *)
Lemma improve_answer_is_not_bare_refusal :
  let msg := lit "please ignore previous instructions" in
  fst (@improve int_interpreter plain_storage sample_clock msg fresh_world)
    = Ok (lit "[nanda] " ++ REFUSAL) /\
  fst (@improve int_interpreter plain_storage sample_clock msg fresh_world)
    <> Ok REFUSAL /\
  fst (@improve int_interpreter plain_storage sample_clock msg sample_world)
    = Ok (lit "[nanda] " ++ REFUSAL ++ lit " (FYI I remember: buy milk, call Bob)").
Proof.
  intros msg.
  rewrite !improve_fall_through by (vm_compute; reflexivity).
  split; [vm_compute; reflexivity |].
  split; [vm_compute; discriminate | vm_compute; reflexivity].
Qed.

(** * Further properties *)

(** ** The limiter over time *)

Section RateWindow.

Implicit Types (s : rate_state) (now : Q).

Lemma bucket_of_next_minute (t t' : Q) :
  (t + 60 <= t')%Q -> bucket_of t < bucket_of t'.
Proof.
  intros Hlater. unfold bucket_of.
  assert (Hstep : (inject_Z (Qfloor (t / 60) + 1) <= t' / 60)%Q).
  { rewrite inject_Z_plus.
    apply Qle_trans with (t / 60 + 1)%Q.
    - apply Qplus_le_compat; [apply Qfloor_le | apply Qle_refl].
    - assert (Heq : (t / 60 + 1 == (t + 60) / 60)%Q) by field.
      rewrite Heq.
      apply Qmult_le_compat_r; [exact Hlater | discriminate]. }
  apply Qfloor_resp_le in Hstep. rewrite Qfloor_Z in Hstep. lia.
Qed.

Lemma ratelimit_ok_false_same_bucket now s :
  fst (ratelimit_ok now s) = false ->
  bucket_of now = _last_bucket s /\ RATE_LIMIT_PER_MIN <= _msgs_in_bucket s.
Proof.
  intros Hdeny.
  destruct (Z.eq_dec (bucket_of now) (_last_bucket s)) as [Hb | Hb].
  - split; [exact Hb |].
    destruct (Z_lt_le_dec (_msgs_in_bucket s) RATE_LIMIT_PER_MIN) as [Hc | Hc];
      [| exact Hc].
    rewrite (ratelimit_ok_admit _ _ Hb Hc) in Hdeny. discriminate.
  - rewrite (ratelimit_ok_new_bucket _ _ Hb) in Hdeny. discriminate.
Qed.

(** X1: "Try again in a minute" holds good.  After a refusal at time [t],
    a call at any time at least 60 seconds later is admitted, and it starts
    the new window with a count of one. *)
Theorem ratelimit_admits_a_minute_after_denial (s : rate_state) (t t' : Q)
    (Hdeny : fst (ratelimit_ok t s) = false)
    (Hlater : (t + 60 <= t')%Q) :
  ratelimit_ok t' (snd (ratelimit_ok t s))
    = (true, {| _last_bucket := bucket_of t'; _msgs_in_bucket := 1 |}).
Proof.
  rewrite (ratelimit_ok_false_unchanged _ _ Hdeny).
  apply ratelimit_ok_new_bucket.
  destruct (ratelimit_ok_false_same_bucket _ _ Hdeny) as [Hb _].
  pose proof (bucket_of_next_minute t t' Hlater). lia.
Qed.

Lemma ratelimit_calls_saturate (ts : list Q) : forall s,
  Forall (fun t => bucket_of t = _last_bucket s) ts ->
  0 <= _msgs_in_bucket s <= RATE_LIMIT_PER_MIN ->
  ratelimit_calls ts s =
    (repeat true
       (Nat.min (length ts) (Z.to_nat (RATE_LIMIT_PER_MIN - _msgs_in_bucket s)))
     ++ repeat false
          (length ts
           - Nat.min (length ts) (Z.to_nat (RATE_LIMIT_PER_MIN - _msgs_in_bucket s))),
     {| _last_bucket := _last_bucket s;
        _msgs_in_bucket :=
          Z.min (_msgs_in_bucket s + Z.of_nat (length ts)) RATE_LIMIT_PER_MIN |}).
Proof.
  unfold RATE_LIMIT_PER_MIN.
  induction ts as [| t ts IH]; intros s Hall Hrange.
  - cbn. destruct s as [b c]; cbn in *. do 2 f_equal. lia.
  - inversion Hall as [| ? ? Ht Hts]; subst.
    cbn [ratelimit_calls length].
    destruct (Z_lt_le_dec (_msgs_in_bucket s) 60) as [Hroom | Hfull].
    + rewrite (ratelimit_ok_admit _ _ Ht Hroom).
      rewrite IH; cbn [_last_bucket _msgs_in_bucket]; [| exact Hts | lia].
      replace (Nat.min (S (length ts)) (Z.to_nat (60 - _msgs_in_bucket s)))
        with (S (Nat.min (length ts) (Z.to_nat (60 - (_msgs_in_bucket s + 1)))))
        by lia.
      cbn [repeat app Nat.sub]. f_equal. f_equal. lia.
    + rewrite (ratelimit_ok_deny _ _ Ht Hfull).
      rewrite IH; [| exact Hts | lia].
      replace (Z.to_nat (60 - _msgs_in_bucket s)) with 0%nat by lia.
      rewrite !Nat.min_0_r, !Nat.sub_0_r. cbn [repeat app]. f_equal. f_equal. lia.
Qed.

(** X2: a window saturates.  From a counter [c] between 0 and 60, calls that
    all fall in the stored minute are admitted until the counter reaches 60
    and refused from then on, however many follow; the counter ends at
    [min (c + n) 60]. *)
Theorem ratelimit_window_saturates (s : rate_state) (ts : list Q)
    (Hminute : Forall (fun t => bucket_of t = _last_bucket s) ts)
    (Hrange : 0 <= _msgs_in_bucket s <= RATE_LIMIT_PER_MIN) :
  let room := Z.to_nat (RATE_LIMIT_PER_MIN - _msgs_in_bucket s) in
  let admitted := Nat.min (length ts) room in
  fst (ratelimit_calls ts s)
    = repeat true admitted ++ repeat false (length ts - admitted) /\
  _msgs_in_bucket (snd (ratelimit_calls ts s))
    = Z.min (_msgs_in_bucket s + Z.of_nat (length ts)) RATE_LIMIT_PER_MIN /\
  _last_bucket (snd (ratelimit_calls ts s)) = _last_bucket s.
Proof.
  intros room admitted.
  rewrite (ratelimit_calls_saturate ts s Hminute Hrange).
  repeat split.
Qed.

End RateWindow.

Lemma ratelimit_admits_a_minute_after_denial_witness :
  let s := {| _last_bucket := bucket_of (1730000000 # 1); _msgs_in_bucket := 60 |} in
  fst (ratelimit_ok (1730000000 # 1) s) = false /\
  ratelimit_ok (1730000060 # 1) (snd (ratelimit_ok (1730000000 # 1) s))
    = (true, {| _last_bucket := bucket_of (1730000060 # 1); _msgs_in_bucket := 1 |}).
Proof.
  intros s.
  assert (Hdeny : fst (ratelimit_ok (1730000000 # 1) s) = false)
    by (vm_compute; reflexivity).
  split; [exact Hdeny |].
  apply (ratelimit_admits_a_minute_after_denial s _ _ Hdeny).
  vm_compute. discriminate.
Defined.

Lemma ratelimit_window_saturates_witness :
  let s := {| _last_bucket := bucket_of (1730000000 # 1); _msgs_in_bucket := 58 |} in
  let ts := repeat (1730000005 # 1) 5 in
  fst (ratelimit_calls ts s) = [true; true; false; false; false] /\
  _msgs_in_bucket (snd (ratelimit_calls ts s)) = 60.
Proof.
  intros s ts.
  assert (Hminute : Forall (fun t => bucket_of t = _last_bucket s) ts).
  { apply Stdlib.Lists.List.Forall_forall. intros t Ht.
    apply repeat_spec in Ht. subst t. vm_compute. reflexivity. }
  assert (Hrange : 0 <= _msgs_in_bucket s <= RATE_LIMIT_PER_MIN)
    by (vm_compute; split; discriminate).
  destruct (ratelimit_window_saturates s ts Hminute Hrange) as (Hans & Hcount & _).
  split; [exact Hans | exact Hcount].
Defined.

(** ** The store on disk *)

Section Durability.

Context {S : Storage}.

Lemma TMP_PATH_fresh : TMP_PATH <> MEM_PATH.
Proof.
  unfold TMP_PATH. intros Heq. apply (f_equal (@length N)) in Heq.
  rewrite List.length_app in Heq. cbn in Heq. lia.
Qed.

Lemma save_mem_stored (d : document) (w : world) :
  save_mem d w = (Ok tt, stored d w).
Proof. rewrite save_mem_run. reflexivity. Qed.

Lemma stored_lookup_store (d : document) (w : world) :
  disk (stored d w) !! MEM_PATH = Some (json_dump d).
Proof. cbn [stored disk]. apply lookup_insert_eq. Qed.

Lemma stored_lookup_tmp (d : document) (w : world) :
  disk (stored d w) !! TMP_PATH = None.
Proof.
  cbn [stored disk]. rewrite lookup_insert_ne by (apply not_eq_sym, TMP_PATH_fresh).
  apply lookup_delete_eq.
Qed.

Lemma stored_lookup_other (d : document) (w : world) (p : list N) :
  p <> MEM_PATH -> p <> TMP_PATH -> disk (stored d w) !! p = disk w !! p.
Proof.
  intros Hm Ht. cbn [stored disk].
  rewrite lookup_insert_ne by congruence.
  rewrite lookup_delete_ne by congruence.
  apply lookup_insert_ne. congruence.
Qed.

(** X3: [save_mem] replaces the store atomically and touches nothing else.
    Whatever was on disk, afterwards the store holds the new text, no
    temporary file is left, every other file is as before, and the only
    file operations were the write of the temporary file followed by its
    move onto the store; the globals are untouched. *)
Theorem save_mem_replaces_atomically (d : document) (w : world) :
  fst (save_mem d w) = Ok tt /\
  disk (snd (save_mem d w)) !! MEM_PATH = Some (json_dump d) /\
  disk (snd (save_mem d w)) !! TMP_PATH = None /\
  (forall p, p <> MEM_PATH -> p <> TMP_PATH ->
     disk (snd (save_mem d w)) !! p = disk w !! p) /\
  io_log (snd (save_mem d w))
    = io_log w ++ [FileWrite TMP_PATH (json_dump d); FileReplace TMP_PATH MEM_PATH] /\
  mem (snd (save_mem d w)) = mem w /\ rate (snd (save_mem d w)) = rate w.
Proof.
  rewrite save_mem_stored. cbn [fst snd].
  split; [reflexivity |].
  split; [apply stored_lookup_store |].
  split; [apply stored_lookup_tmp |].
  split; [intros p; apply stored_lookup_other |].
  repeat split.
Qed.

(** X4: a missing store and an unreadable one both start the agent empty:
    [load_mem] gives the default document stamped with the current time,
    and every recall, whatever the query, answers "No memory found.". *)
Theorem fresh_or_corrupt_store_is_empty (now : Q) (fs : gmap (list N) (list N))
    (query : str)
    (Hbad : fs !! MEM_PATH = None \/
            exists content, fs !! MEM_PATH = Some content /\ json_load content = None) :
  load_mem now fs = default_mem now /\
  tool_recall query (startup now fs)
    = (Ok (lit "No memory found."), startup now fs).
Proof.
  assert (Hload : load_mem now fs = default_mem now).
  { unfold load_mem. destruct Hbad as [-> | (content & -> & ->)]; reflexivity. }
  split; [exact Hload |].
  rewrite tool_recall_run. unfold startup at 1. cbn [mem]. rewrite Hload.
  unfold recall_text. cbn [default_mem notes].
  destruct (lower (strip query)); reflexivity.
Qed.

End Durability.

Lemma fresh_or_corrupt_store_is_empty_witness :
  (∅ : gmap (list N) (list N)) !! (@MEM_PATH plain_storage) = None /\
  @load_mem plain_storage 5 ∅ = default_mem 5 /\
  tool_recall (lit "milk") (@startup plain_storage 5 ∅)
    = (Ok (lit "No memory found."), @startup plain_storage 5 ∅).
Proof.
  assert (Hmissing : (∅ : gmap (list N) (list N)) !! (@MEM_PATH plain_storage) = None)
    by apply lookup_empty.
  split; [exact Hmissing |].
  exact (@fresh_or_corrupt_store_is_empty plain_storage 5 ∅ (lit "milk")
           (or_introl Hmissing)).
Defined.

(** ** One message, all the effects *)

Section Effects.

Context {I : Interpreter} {S : Storage}.

Lemma finish_run (out : list N) (w : world) :
  (count_message ;;; (m <- get_mem ;; (save_mem m ;;; ret out))) w
    = (Ok out, processed w).
Proof.
  unfold count_message, bind, get_mem, set_mem, ret. cbv beta iota. cbn [mem].
  rewrite save_mem_stored. reflexivity.
Qed.

Lemma compose_full_run (message_text : str) (w : world) :
  compose message_text w
    = (Ok (lit "[nanda] " ++ respond message_text ++ memory_hint (notes (mem w))),
       processed w).
Proof.
  unfold compose, count_message, bind, get_mem, set_mem, ret. cbv beta iota.
  cbn [mem]. rewrite save_mem_stored. reflexivity.
Qed.

Lemma tool_remember_full_run (clk : clock) (arg : str) (w : world) :
  tool_remember clk arg w
    = (Ok (lit "Saved: " ++ [8220%N] ++ strip arg ++ [8221%N]), remembered clk arg w).
Proof.
  unfold tool_remember, bind, get_mem, set_mem, ret. cbv beta iota. cbn [mem].
  rewrite save_mem_stored. reflexivity.
Qed.

(** [improve], case by case. *)
Lemma improve_run (clk : clock) (message_text : str) (w : world) :
  improve clk message_text w =
    let rl := ratelimit_ok (time_time clk) (rate w) in
    let w0 := put_rate (snd rl) w in
    if negb (fst rl) then (Ok RATE_LIMITED, w0)
    else
      match re_match_command (strip message_text) with
      | None =>
          (Ok (lit "[nanda] " ++ respond message_text
               ++ memory_hint (notes (mem w))), processed w0)
      | Some (g1, arg) =>
          if str_eqb (lower g1) (lit "calc") then
            match tool_calc arg with
            | Ok out => (Ok out, processed w0)
            | Raise e => (Raise e, w0)
            end
          else if str_eqb (lower g1) (lit "remember") then
            (Ok (lit "Saved: " ++ [8220%N] ++ strip arg ++ [8221%N]),
             processed (remembered clk arg w0))
          else if str_eqb (lower g1) (lit "recall") then
            (Ok (recall_text (notes (mem w)) arg), processed w0)
          else (Ok (lit "Unknown command: /" ++ lower g1), processed w0)
      end.
Proof.
  cbv zeta. unfold improve, ratelimit_ok_m. unfold bind at 1.
  destruct (ratelimit_ok (time_time clk) (rate w)) as [ok r]. cbn [fst snd].
  fold (put_rate r w). destruct ok; cbn [negb]; [| reflexivity].
  unfold bind at 1. unfold try_tools.
  destruct (re_match_command (strip message_text)) as [[g1 arg] |].
  2:{ unfold ret at 1. cbv beta iota. rewrite compose_full_run. reflexivity. }
  destruct (str_eqb (lower g1) (lit "calc")).
  { unfold bind at 1, lift_outcome.
    destruct (tool_calc arg) as [out | e]; [| reflexivity].
    unfold ret at 1. cbv beta iota. apply finish_run. }
  destruct (str_eqb (lower g1) (lit "remember")).
  { unfold bind at 1. rewrite tool_remember_full_run. unfold ret at 1.
    cbv beta iota. apply finish_run. }
  destruct (str_eqb (lower g1) (lit "recall")).
  { unfold bind at 1. rewrite tool_recall_run. unfold ret at 1.
    cbv beta iota. rewrite finish_run. reflexivity. }
  unfold ret at 1. cbv beta iota. apply finish_run.
Qed.

End Effects.

Section Bookkeeping.

Context {I : Interpreter} {S : Storage}.

Lemma str_eqb_eq (a : list N) : forall b, str_eqb a b = true -> a = b.
Proof.
  induction a as [| x a IH]; intros [| y b] Heq; try discriminate; [reflexivity |].
  cbn in Heq. apply andb_true_iff in Heq. destruct Heq as [Hxy Hab].
  apply N.eqb_eq in Hxy. subst y. f_equal. now apply IH.
Qed.

Lemma tool_calc_raise_inv (expr : str) (e : exn) :
  tool_calc expr = Raise e -> is_Exception (exn_class e) = false.
Proof.
  unfold tool_calc, try_except_Exception.
  destruct (py_eval (sanitize expr)) as [v | e1].
  - destruct (py_format v) as [shown | e2]; [discriminate |].
    destruct (is_Exception (exn_class e2)) eqn:Hc; [discriminate |].
    intros Heq. inversion Heq; subst. exact Hc.
  - destruct (is_Exception (exn_class e1)) eqn:Hc; [discriminate |].
    intros Heq. inversion Heq; subst. exact Hc.
Qed.

Lemma stored_in_sync (d : document) (w : world) : in_sync (stored d (put_mem d w)).
Proof.
  split; [apply stored_lookup_store | apply stored_lookup_tmp].
Qed.

Lemma processed_in_sync (w : world) : in_sync (processed w).
Proof. apply stored_in_sync. Qed.

(** The ways a call of [improve] can end, and the world each leaves. *)
Lemma improve_summary (clk : clock) (message_text : str) (w : world) :
  let rl := ratelimit_ok (time_time clk) (rate w) in
  let w0 := put_rate (snd rl) w in
  let w' := snd (improve clk message_text w) in
  (fst rl = false /\ fst (improve clk message_text w) = Ok RATE_LIMITED /\ w' = w) \/
  (fst rl = true /\
   (exists e, fst (improve clk message_text w) = Raise e
              /\ is_Exception (exn_class e) = false) /\ w' = w0) \/
  (fst rl = true /\ (exists out, fst (improve clk message_text w) = Ok out) /\
   (w' = processed w0 \/
    exists g1 arg, re_match_command (strip message_text) = Some (g1, arg)
                   /\ lower g1 = lit "remember"
                   /\ w' = processed (remembered clk arg w0))).
Proof.
  cbv zeta. rewrite improve_run. cbv zeta.
  destruct (ratelimit_ok (time_time clk) (rate w)) as [ok r] eqn:Hrl.
  cbn [fst snd]. destruct ok; cbn [negb fst snd].
  2:{ left. repeat split.
      pose proof (ratelimit_ok_false_unchanged (time_time clk) (rate w)) as Hsame.
      rewrite Hrl in Hsame. cbn [fst snd] in Hsame. rewrite (Hsame eq_refl).
      unfold put_rate. apply world_eta. }
  right.
  destruct (re_match_command (strip message_text)) as [[g1 arg] |] eqn:Hm.
  2:{ right. cbn [fst snd]. split; [reflexivity |]. split; [eauto | now left]. }
  destruct (str_eqb (lower g1) (lit "calc")).
  { destruct (tool_calc arg) as [out | e] eqn:Hcalc; cbn [fst snd].
    - right. split; [reflexivity |]. split; [eauto | now left].
    - left. split; [reflexivity |]. split; [| reflexivity].
      exists e. split; [reflexivity |]. eapply tool_calc_raise_inv; eassumption. }
  destruct (str_eqb (lower g1) (lit "remember")) eqn:Hrem.
  { right. cbn [fst snd]. split; [reflexivity |]. split; [eauto |].
    right. exists g1, arg. repeat split. now apply str_eqb_eq. }
  destruct (str_eqb (lower g1) (lit "recall"));
    right; cbn [fst snd]; (split; [reflexivity |]); (split; [eauto | now left]).
Qed.

(** What an answered message leaves behind, and what an unanswered one
    leaves alone. *)
Lemma improve_answered_facts (clk : clock) (message_text : str) (w : world)
    (out : list N) :
  fst (ratelimit_ok (time_time clk) (rate w)) = true ->
  fst (improve clk message_text w) = Ok out ->
  in_sync (snd (improve clk message_text w)) /\
  metrics (mem (snd (improve clk message_text w))) = metrics (count_doc (mem w)).
Proof.
  intros Hadmit Hout.
  destruct (improve_summary clk message_text w)
    as [(Hrl & _) | [(_ & (e & He & _) & _) | (_ & _ & Hw)]].
  - rewrite Hrl in Hadmit. discriminate.
  - rewrite He in Hout. discriminate.
  - destruct Hw as [-> | (g1 & arg & _ & _ & ->)];
      (split; [apply processed_in_sync | reflexivity]).
Qed.

Lemma improve_unanswered_facts (clk : clock) (message_text : str) (w : world) :
  fst (ratelimit_ok (time_time clk) (rate w)) = false \/
    (exists e, fst (improve clk message_text w) = Raise e) ->
  mem (snd (improve clk message_text w)) = mem w.
Proof.
  intros Hcase.
  destruct (improve_summary clk message_text w)
    as [(_ & _ & Hw) | [(_ & _ & Hw) | (Hrl & (out & Hout) & _)]];
    [now rewrite Hw | now rewrite Hw |].
  destruct Hcase as [Hdeny | (e & He)]; congruence.
Qed.

(** X5: the file follows the memory.  When a call of [improve] returns,
    a message that was admitted has left the store file holding exactly the
    document in memory, with no temporary file behind; and a refused one
    has left that agreement as it found it. *)
Theorem improve_keeps_store_in_sync (clk : clock) (message_text : str) (w : world)
    (out : list N)
    (Hout : fst (improve clk message_text w) = Ok out) :
  (fst (ratelimit_ok (time_time clk) (rate w)) = true ->
   in_sync (snd (improve clk message_text w))) /\
  (fst (ratelimit_ok (time_time clk) (rate w)) = false ->
   out = RATE_LIMITED /\
   disk (snd (improve clk message_text w)) = disk w /\
   (in_sync w -> in_sync (snd (improve clk message_text w)))).
Proof.
  destruct (improve_summary clk message_text w)
    as [(Hrl & Hlim & Hw) | [(Hrl & (e & He & _) & Hw) | (Hrl & _ & Hw)]].
  - rewrite Hrl, Hw. split; [discriminate |]. intros _.
    rewrite Hlim in Hout. inversion Hout. auto.
  - rewrite He in Hout. discriminate.
  - rewrite Hrl. split; [intros _ | discriminate].
    destruct Hw as [-> | (g1 & arg & _ & _ & ->)]; apply processed_in_sync.
Qed.

(** X6: an answered message survives a restart.  After a message that was
    admitted and answered, reading the store back from disk gives the
    document in memory, new note and message count included, provided the
    codec reads back what it wrote for that document. *)
Theorem improve_then_restart (clk : clock) (message_text : str) (w : world)
    (now : Q) (out : list N)
    (Hadmit : fst (ratelimit_ok (time_time clk) (rate w)) = true)
    (Hout : fst (improve clk message_text w) = Ok out)
    (Hcodec : json_load (json_dump (mem (snd (improve clk message_text w))))
              = Some (mem (snd (improve clk message_text w)))) :
  load_mem now (disk (snd (improve clk message_text w)))
    = mem (snd (improve clk message_text w)) /\
  mem (startup now (disk (snd (improve clk message_text w))))
    = mem (snd (improve clk message_text w)).
Proof.
  destruct (improve_answered_facts clk message_text w out Hadmit Hout)
    as [[Hfile _] _].
  assert (Hload : load_mem now (disk (snd (improve clk message_text w)))
                  = mem (snd (improve clk message_text w)))
    by (apply load_mem_stored; assumption).
  split; [exact Hload | exact Hload].
Qed.

(** X7: notes are only ever appended.  Whatever the message and however the
    call ends, the notes held before are still there, in the same order, at
    the front; at most one note is added, and only by a remember command,
    whose trimmed argument and time stamp it carries. *)
Theorem improve_appends_notes_only (clk : clock) (message_text : str) (w : world) :
  notes (mem (snd (improve clk message_text w))) = notes (mem w) \/
  exists g1 arg,
    re_match_command (strip message_text) = Some (g1, arg) /\
    lower g1 = lit "remember" /\
    notes (mem (snd (improve clk message_text w)))
      = notes (mem w) ++ [{| text := strip arg; ts := utcnow_iso clk ++ lit "Z" |}].
Proof.
  destruct (improve_summary clk message_text w)
    as [(_ & _ & Hw) | [(_ & _ & Hw) | (_ & _ & [Hw | (g1 & arg & Hm & Hg & Hw)])]];
    rewrite Hw; [now left | now left | now left |].
  right. exists g1, arg. repeat split; assumption.
Qed.

(** X8: every answered message is counted once, and a refused one is not.
    When a call of [improve] returns, the message count has gone up by
    exactly one if the message was admitted, and is as it was if the limiter
    refused; the start time is as it was. *)
Theorem improve_counts_answered_messages (clk : clock) (message_text : str)
    (w : world) (out : list N)
    (Hout : fst (improve clk message_text w) = Ok out) :
  let w' := snd (improve clk message_text w) in
  let admitted := fst (ratelimit_ok (time_time clk) (rate w)) in
  start_ts (metrics (mem w')) = start_ts (metrics (mem w)) /\
  (admitted = false ->
   out = RATE_LIMITED /\ messages (metrics (mem w')) = messages (metrics (mem w))) /\
  (admitted = true ->
   messages (metrics (mem w')) = messages (metrics (mem w)) + 1).
Proof.
  cbv zeta.
  destruct (improve_summary clk message_text w)
    as [(Hrl & Hlim & Hw) | [(Hrl & (e & He & _) & Hw)
                            | (Hrl & _ & Hw)]].
  - rewrite Hw, Hrl. rewrite Hlim in Hout. inversion Hout.
    repeat split; intros; congruence.
  - rewrite He in Hout. discriminate.
  - rewrite Hrl.
    assert (Hm : metrics (mem (snd (improve clk message_text w)))
                 = metrics (count_doc (mem w)))
      by (destruct Hw as [-> | (g1 & arg & _ & _ & ->)]; reflexivity).
    rewrite Hm. cbn. repeat split; intros; congruence.
Qed.

(** X10: the store is written only by atomic replacement.  All the file
    operations of a call of [improve] are writes of the temporary file and
    moves of it onto the store, in pairs; the store file is never opened for
    writing, and no other file on disk is changed. *)
Theorem improve_writes_atomically (clk : clock) (message_text : str) (w : world) :
  let w' := snd (improve clk message_text w) in
  (exists evs, io_log w' = io_log w ++ evs /\ Forall save_event evs /\
     (evs = [] \/
      (exists c, evs = [FileWrite TMP_PATH c; FileReplace TMP_PATH MEM_PATH]) \/
      (exists c1 c2, evs = [FileWrite TMP_PATH c1; FileReplace TMP_PATH MEM_PATH;
                            FileWrite TMP_PATH c2; FileReplace TMP_PATH MEM_PATH]))) /\
  (forall p, p <> MEM_PATH -> p <> TMP_PATH -> disk w' !! p = disk w !! p).
Proof.
  cbv zeta.
  assert (Hpair : forall c, Forall save_event
                    [FileWrite TMP_PATH c; FileReplace TMP_PATH MEM_PATH]).
  { intros c. repeat constructor. }
  destruct (improve_summary clk message_text w)
    as [(_ & _ & Hw) | [(_ & _ & Hw) | (_ & _ & [Hw | (g1 & arg & _ & _ & Hw)])]];
    rewrite Hw.
  - split; [| reflexivity]. exists []. rewrite app_nil_r. repeat split; auto.
  - split; [| reflexivity]. exists []. rewrite app_nil_r. repeat split; auto.
  - split.
    + eexists. split; [reflexivity |]. split; [apply Hpair | right; left; eauto].
    + intros p Hm Ht. unfold processed. now rewrite stored_lookup_other.
  - split.
    + eexists. split.
      * unfold processed, remembered. cbn [stored put_mem io_log mem put_rate].
        rewrite <- app_assoc. reflexivity.
      * split; [| right; right; eauto]. repeat constructor.
    + intros p Hm Ht. unfold processed, remembered.
      rewrite stored_lookup_other by assumption. cbn [put_mem disk].
      now rewrite stored_lookup_other.
Qed.

End Bookkeeping.

Lemma improve_then_restart_witness :
  let msg := lit "/remember call Ann" in
  let w' := snd (@improve int_interpreter plain_storage sample_clock msg sample_world) in
  fst (ratelimit_ok (time_time sample_clock) (rate sample_world)) = true /\
  fst (@improve int_interpreter plain_storage sample_clock msg sample_world)
    = Ok (lit "Saved: " ++ [8220%N] ++ lit "call Ann" ++ [8221%N]) /\
  @load_mem plain_storage 0 (disk w') = mem w' /\
  List.map text (notes (mem w')) = [lit "buy milk"; lit "call Bob"; lit "call Ann"].
Proof.
  intros msg w'.
  assert (Hadmit : fst (ratelimit_ok (time_time sample_clock) (rate sample_world)) = true)
    by (vm_compute; reflexivity).
  assert (Hout : fst (@improve int_interpreter plain_storage sample_clock msg sample_world)
                 = Ok (lit "Saved: " ++ [8220%N] ++ lit "call Ann" ++ [8221%N]))
    by (vm_compute; reflexivity).
  assert (Hcodec : @json_load plain_storage (@json_dump plain_storage (mem w'))
                   = Some (mem w')) by (vm_compute; reflexivity).
  split; [exact Hadmit |]. split; [exact Hout |].
  split; [| vm_compute; reflexivity].
  exact (proj1 (@improve_then_restart int_interpreter plain_storage sample_clock msg
                  sample_world 0 _ Hadmit Hout Hcodec)).
Defined.

Lemma improve_keeps_store_in_sync_witness :
  let msg := lit "/remember call Ann" in
  let w' := snd (@improve int_interpreter plain_storage sample_clock msg sample_world) in
  fst (@improve int_interpreter plain_storage sample_clock msg sample_world)
    = Ok (lit "Saved: " ++ [8220%N] ++ lit "call Ann" ++ [8221%N]) /\
  disk w' !! lit "memory.json" = Some (plain_dump (mem w')) /\
  disk w' !! lit "memory.json.tmp" = None.
Proof.
  intros msg w'.
  assert (Hout : fst (@improve int_interpreter plain_storage sample_clock msg sample_world)
                 = Ok (lit "Saved: " ++ [8220%N] ++ lit "call Ann" ++ [8221%N]))
    by (vm_compute; reflexivity).
  split; [exact Hout |].
  assert (Hadmit : fst (ratelimit_ok (time_time sample_clock) (rate sample_world)) = true)
    by (vm_compute; reflexivity).
  exact (proj1 (@improve_keeps_store_in_sync int_interpreter plain_storage sample_clock
                  msg sample_world _ Hout) Hadmit).
Defined.

Lemma improve_counts_answered_messages_witness :
  let msg := lit "/recall milk" in
  fst (@improve int_interpreter plain_storage sample_clock msg sample_world)
    = Ok (lit "Recent memory:" ++ [10%N] ++ lit "- buy milk (@2024-10-27T03:33:20Z)") /\
  messages (metrics (mem sample_world)) = 7 /\
  messages (metrics (mem (snd (@improve int_interpreter plain_storage sample_clock
                                 msg sample_world)))) = 8.
Proof.
  intros msg.
  assert (Hout : fst (@improve int_interpreter plain_storage sample_clock msg sample_world)
                 = Ok (lit "Recent memory:" ++ [10%N]
                       ++ lit "- buy milk (@2024-10-27T03:33:20Z)"))
    by (vm_compute; reflexivity).
  split; [exact Hout |]. split; [reflexivity |].
  destruct (@improve_counts_answered_messages int_interpreter plain_storage
              sample_clock msg sample_world _ Hout) as (_ & _ & Hcount).
  rewrite Hcount by (vm_compute; reflexivity). reflexivity.
Defined.

(** ** A minute of messages *)

Section Minute.

Context {I : Interpreter} {S : Storage}.

Lemma improve_rate (clk : clock) (message_text : str) (w : world) :
  rate (snd (improve clk message_text w))
    = snd (ratelimit_ok (time_time clk) (rate w)).
Proof.
  destruct (improve_summary clk message_text w)
    as [(Hrl & _ & Hw) | [(_ & _ & Hw) | (_ & _ & [Hw | (g1 & arg & _ & _ & Hw)])]];
    rewrite Hw; try reflexivity.
  symmetry. now apply ratelimit_ok_false_unchanged.
Qed.

(** One call made in the stored minute: the limiter stays in that minute
    and within its limit, and the message count grows no more than the
    limiter's counter does. *)
Lemma improve_step_in_minute (clk : clock) (message_text : str) (w : world) :
  bucket_of (time_time clk) = _last_bucket (rate w) ->
  0 <= _msgs_in_bucket (rate w) <= RATE_LIMIT_PER_MIN ->
  let w' := snd (improve clk message_text w) in
  _last_bucket (rate w') = _last_bucket (rate w) /\
  _msgs_in_bucket (rate w) <= _msgs_in_bucket (rate w') <= RATE_LIMIT_PER_MIN /\
  messages (metrics (mem w')) - messages (metrics (mem w))
    <= _msgs_in_bucket (rate w') - _msgs_in_bucket (rate w) /\
  messages (metrics (mem w)) <= messages (metrics (mem w')).
Proof.
  intros Hb Hrange. cbv zeta. rewrite improve_rate.
  destruct (Z_lt_le_dec (_msgs_in_bucket (rate w)) RATE_LIMIT_PER_MIN) as [Hroom | Hfull].
  - pose proof (improve_answered_facts clk message_text w) as Hanswered.
    pose proof (improve_unanswered_facts clk message_text w) as Hraised.
    rewrite (ratelimit_ok_admit _ _ Hb Hroom) in *.
    cbn [fst snd _last_bucket _msgs_in_bucket] in *.
    destruct (fst (improve clk message_text w)) as [out | e] eqn:Hout.
    + destruct (Hanswered out eq_refl eq_refl) as [_ ->]. cbn. lia.
    + rewrite Hraised by (right; eauto). lia.
  - pose proof (improve_unanswered_facts clk message_text w) as Hdenied.
    rewrite (ratelimit_ok_deny _ _ Hb Hfull) in *. cbn [fst snd] in *.
    rewrite Hdenied by now left. lia.
Qed.

(** X11: the limit holds for the agent as a whole.  Over any run of
    messages handled within the stored minute, starting with the counter at
    [c], at most [60 - c] messages are counted as handled, however many
    arrive and whatever they say; the count never goes down. *)
Theorem improve_all_caps_a_minute (inputs : list (clock * list N)) (w : world)
    (Hminute : Forall (fun i => bucket_of (time_time (fst i)) = _last_bucket (rate w))
                      inputs)
    (Hrange : 0 <= _msgs_in_bucket (rate w) <= RATE_LIMIT_PER_MIN) :
  let w' := snd (improve_all inputs w) in
  messages (metrics (mem w)) <= messages (metrics (mem w'))
    <= messages (metrics (mem w)) + (RATE_LIMIT_PER_MIN - _msgs_in_bucket (rate w)) /\
  _msgs_in_bucket (rate w') <= RATE_LIMIT_PER_MIN /\
  length (fst (improve_all inputs w)) = length inputs.
Proof.
  cbv zeta. revert w Hminute Hrange.
  induction inputs as [| [clk message_text] inputs IH]; intros w Hminute Hrange.
  - cbn. lia.
  - inversion Hminute as [| ? ? Hb Hrest]; subst. cbn [fst] in Hb.
    cbn [improve_all].
    pose proof (improve_step_in_minute clk message_text w Hb Hrange) as Hstep.
    cbv zeta in Hstep.
    destruct (improve clk message_text w) as [o w1]. cbn [snd] in Hstep.
    destruct Hstep as (Hbucket & Hcount & Hmsgs & Hmono).
    assert (Hminute1 : Forall (fun i => bucket_of (time_time (fst i))
                                        = _last_bucket (rate w1)) inputs)
      by (now rewrite Hbucket).
    assert (Hrange1 : 0 <= _msgs_in_bucket (rate w1) <= RATE_LIMIT_PER_MIN) by lia.
    specialize (IH w1 Hminute1 Hrange1).
    destruct (improve_all inputs w1) as [os w2]. cbn [fst snd length] in *. lia.
Qed.

End Minute.

Lemma improve_all_caps_a_minute_witness :
  let w := put_rate {| _last_bucket := bucket_of (time_time sample_clock);
                       _msgs_in_bucket := 59 |} sample_world in
  let inputs := [(sample_clock, lit "hello"); (sample_clock, lit "/recall");
                 (sample_clock, lit "/calc 2+2")] in
  messages (metrics (mem (snd (@improve_all int_interpreter plain_storage inputs w))))
    <= messages (metrics (mem w)) + 1.
Proof.
  intros w inputs.
  assert (Hminute : Forall (fun i => bucket_of (time_time (fst i))
                                     = _last_bucket (rate w)) inputs)
    by (repeat constructor).
  assert (Hrange : 0 <= _msgs_in_bucket (rate w) <= RATE_LIMIT_PER_MIN)
    by (vm_compute; split; discriminate).
  destruct (@improve_all_caps_a_minute int_interpreter plain_storage inputs w
              Hminute Hrange) as ([_ Hcap] & _).
  exact Hcap.
Defined.

(** ** What the dispatcher takes for a command *)

Section Dispatch.

Context {I : Interpreter} {S : Storage}.

Implicit Types (s r g rest : list N).

Lemma rstrip_last s u c : rstrip s = u ++ [c] -> is_space c = false.
Proof.
  unfold rstrip. intros Heq. apply (f_equal (@rev N)) in Heq.
  rewrite rev_involutive, rev_app_distr in Heq. cbn in Heq.
  eapply lstrip_head; eassumption.
Qed.

Lemma rstrip_after_word (a b : list N) :
  a <> [] -> Forall (fun c => is_space c = false) a ->
  rstrip (a ++ b) = a ++ rstrip b.
Proof.
  intros Hne Hall. destruct (exists_last Hne) as (u & c & ->).
  rewrite <- app_assoc. cbn [app].
  rewrite rstrip_app_word; [now rewrite <- app_assoc |].
  rewrite Stdlib.Lists.List.Forall_forall in Hall. apply Hall.
  apply in_or_app. right. now left.
Qed.

Lemma lstrip_spaces (ws s : list N) :
  Forall (fun c => is_space c = true) ws -> lstrip (ws ++ s) = lstrip s.
Proof.
  induction 1 as [| c ws Hc _ IH]; [reflexivity |]. cbn [app lstrip]. now rewrite Hc.
Qed.

Lemma commands_not_space name :
  In name COMMANDS -> name <> [] /\ Forall (fun c => is_space c = false) name.
Proof.
  intros [<- | [<- | [<- | []]]]; (split; [discriminate | repeat constructor]).
Qed.

(** The text [strip] leaves of a message that starts with a command. *)
Lemma strip_command g rest :
  In (lower g) COMMANDS -> strip (47%N :: g ++ rest) = 47%N :: g ++ rstrip rest.
Proof.
  intros Hcmd. destruct (commands_not_space _ Hcmd) as [Hne Hall].
  unfold strip.
  replace (lstrip (47%N :: g ++ rest)) with ((47%N :: g) ++ rest) by reflexivity.
  rewrite rstrip_after_word; [reflexivity | discriminate |].
  constructor; [reflexivity |]. now destruct (lower_in_commands g Hcmd) as (_ & _ & Hg).
Qed.

Lemma ci_prefix_complete g : forall r,
  ci_prefix (List.map lower_char g) (g ++ r) = Some (g, r).
Proof.
  induction g as [| c g IH]; intros r; [reflexivity |].
  cbn [List.map app ci_prefix]. rewrite N.eqb_refl. now rewrite IH.
Qed.

Lemma ci_prefix_None name s :
  In name COMMANDS -> is_prefix name (lower s) = false -> ci_prefix name s = None.
Proof.
  intros Hin Hpre. destruct (ci_prefix name s) as [[g r] |] eqn:Hm; [| reflexivity].
  apply ci_prefix_sound in Hm; [| now apply commands_cmd_letters].
  destruct Hm as (-> & <- & Hplain). unfold lower in Hpre.
  rewrite lower_from_plain in Hpre by exact Hplain.
  rewrite is_prefix_app in Hpre. discriminate.
Qed.

Lemma first_match_map {A B C} (f : A -> option B) (h : B -> C) (l : list A) :
  first_match (fun x => match f x with Some b => Some (h b) | None => None end) l
    = match first_match f l with Some b => Some (h b) | None => None end.
Proof.
  induction l as [| x l IH]; [reflexivity |]. cbn [first_match].
  destruct (f x); [reflexivity | exact IH].
Qed.

Lemma first_match_None {A B} (f : A -> option B) (l : list A) :
  (forall x, In x l -> f x = None) -> first_match f l = None.
Proof.
  induction l as [| x l IH]; intros Hall; [reflexivity |]. cbn [first_match].
  rewrite (Hall x (or_introl eq_refl)). apply IH. intros y Hy. apply Hall. now right.
Qed.

(** The match on a text that starts with a slash and a command word is
    decided by what follows the word. *)
Lemma re_match_command_word g r :
  In (lower g) COMMANDS ->
  re_match_command (47%N :: g ++ r)
    = match first_match dot_star_end (ws_splits r) with
      | Some arg => Some (g, arg)
      | None => None
      end.
Proof.
  intros Hcmd. unfold re_match_command. cbn [first_match].
  destruct (lower_in_commands g Hcmd) as (Hplain & Hmap & _).
  assert (Hother : forall name, name <> lower g -> In name COMMANDS ->
                     ci_prefix name (g ++ r) = None).
  { intros name Hne Hin. apply ci_prefix_None; [exact Hin |]. unfold lower at 1.
    rewrite lower_from_plain, Hmap by exact Hplain.
    destruct Hcmd as [Hg | [Hg | [Hg | []]]]; rewrite <- Hg in *;
      destruct Hin as [<- | [<- | [<- | []]]];
      try reflexivity; now elim Hne. }
  assert (Hself : ci_prefix (lower g) (g ++ r) = Some (g, r))
    by (rewrite <- Hmap; apply ci_prefix_complete).
  clear Hplain Hmap.
  pose proof (first_match_map dot_star_end (fun arg => (g, arg)) (ws_splits r))
    as Htail.
  destruct Hcmd as [Hg | [Hg | [Hg | []]]]; rewrite <- Hg in *.
  - rewrite Hself, Htail.
    destruct (first_match dot_star_end (ws_splits r)); [reflexivity |].
    rewrite !Hother; [reflexivity | discriminate | cbn; auto | discriminate | cbn; auto].
  - rewrite (Hother (lit "calc")) by (discriminate || (cbn; auto)).
    rewrite Hself, Htail.
    destruct (first_match dot_star_end (ws_splits r)); [reflexivity |].
    rewrite !Hother; [reflexivity | discriminate | cbn; auto].
  - rewrite (Hother (lit "calc")) by (discriminate || (cbn; auto)).
    rewrite (Hother (lit "remember")) by (discriminate || (cbn; auto)).
    rewrite Hself, Htail.
    destruct (first_match dot_star_end (ws_splits r)); reflexivity.
Qed.

End Dispatch.

Section Routing.

Context {I : Interpreter} {S : Storage}.

Implicit Types (s r g : list N).

Lemma has_newline_In s : has_newline s = true <-> In 10%N s.
Proof.
  unfold has_newline. rewrite existsb_exists. split.
  - intros (c & Hc & Heq). apply N.eqb_eq in Heq. now subst.
  - intros Hin. exists 10%N. split; [exact Hin | reflexivity].
Qed.

Lemma line_head_spec s : forall a b,
  line_head s = (a, b) ->
  s = a ++ b /\ ~ In 10%N a /\ (b = [] \/ exists b', b = 10%N :: b').
Proof.
  induction s as [| c s IH]; intros a b Hlh.
  - cbn in Hlh. inversion Hlh; subst. repeat split; auto.
  - cbn [line_head] in Hlh. destruct (N.eqb_spec c 10) as [-> | Hc].
    + inversion Hlh; subst. repeat split; eauto.
    + destruct (line_head s) as [a' b'] eqn:Hrec. inversion Hlh; subst.
      destruct (IH a' b eq_refl) as (Hs & Hno & Hb).
      split; [cbn; now rewrite <- Hs |]. split; [| exact Hb].
      intros [Heq | Hin]; [now elim Hc | now elim Hno].
Qed.

Lemma dot_star_end_plain s : has_newline s = false -> dot_star_end s = Some s.
Proof.
  intros Hno. unfold dot_star_end.
  destruct (line_head s) as [a b] eqn:Hlh.
  destruct (line_head_spec s a b Hlh) as (Hs & _ & [-> | (b' & ->)]).
  - rewrite app_nil_r in Hs. now subst.
  - exfalso. assert (Hin : In 10%N s) by (rewrite Hs; apply in_or_app; right; now left).
    apply has_newline_In in Hin. congruence.
Qed.

Lemma dot_star_end_newline s :
  has_newline s = true -> (forall u, s <> u ++ [10%N]) -> dot_star_end s = None.
Proof.
  intros Hnl Hend. unfold dot_star_end.
  destruct (line_head s) as [a b] eqn:Hlh.
  destruct (line_head_spec s a b Hlh) as (Hs & Hno & [-> | (b' & ->)]).
  - exfalso. rewrite app_nil_r in Hs. subst a. apply Hno. now apply has_newline_In.
  - destruct b' as [| x b']; [now elim (Hend a) | reflexivity].
Qed.

Lemma ws_splits_head s : exists l, ws_splits s = lstrip s :: l.
Proof.
  induction s as [| c s [l IH]]; [now exists [] |]. cbn [ws_splits lstrip].
  destruct (is_space c); [| now exists []].
  rewrite IH. now exists (l ++ [c :: s]).
Qed.

Lemma ws_splits_In s : forall r',
  In r' (ws_splits s) ->
  exists ws, Forall (fun c => is_space c = true) ws /\ s = ws ++ r'.
Proof.
  induction s as [| c s IH]; intros r' Hin.
  - cbn in Hin. destruct Hin as [<- | []]. now exists [].
  - cbn [ws_splits] in Hin. destruct (is_space c) eqn:Hc.
    + apply in_app_or in Hin. destruct Hin as [Hin | [<- | []]].
      * destruct (IH r' Hin) as (ws & Hws & ->).
        exists (c :: ws). split; [now constructor | reflexivity].
      * now exists [].
    + destruct Hin as [<- | []]. now exists [].
Qed.

(** What the tail of the pattern makes of the text after the command word:
    the text without its leading white space, unless a line feed is in it. *)
Lemma tail_match r :
  ends_in_text r ->
  first_match dot_star_end (ws_splits r)
    = if has_newline (lstrip r) then None else Some (lstrip r).
Proof.
  intros Hend. destruct (has_newline (lstrip r)) eqn:Hnl.
  - apply first_match_None. intros r' Hin.
    destruct (ws_splits_In r r' Hin) as (ws & Hws & Hr).
    assert (Hl : lstrip r' = lstrip r) by (rewrite Hr; now rewrite lstrip_spaces).
    apply dot_star_end_newline.
    + apply has_newline_In. apply has_newline_In in Hnl. rewrite <- Hl in Hnl.
      destruct (lstrip_suffix r') as [a Ha]. rewrite Ha. apply in_or_app. now right.
    + intros u ->. specialize (Hend (ws ++ u) 10%N).
      rewrite <- app_assoc in Hend. specialize (Hend Hr). discriminate.
  - destruct (ws_splits_head r) as [l ->]. cbn [first_match].
    now rewrite dot_star_end_plain.
Qed.

Lemma strip_ends_in_text s a r : strip s = a ++ r -> ends_in_text r.
Proof.
  intros Hs u c ->. unfold strip in Hs.
  apply (rstrip_last (lstrip s) (a ++ u) c). rewrite Hs. now rewrite <- app_assoc.
Qed.

Lemma re_match_command_stripped (message_text : str) g r :
  strip message_text = 47%N :: g ++ r -> In (lower g) COMMANDS ->
  re_match_command (strip message_text)
    = if has_newline (lstrip r) then None else Some (g, lstrip r).
Proof.
  intros Hs Hcmd. rewrite Hs, re_match_command_word by exact Hcmd.
  rewrite tail_match by (apply (strip_ends_in_text message_text (47%N :: g)); exact Hs).
  now destruct (has_newline (lstrip r)).
Qed.

Lemma lower_command g : In (lower g) COMMANDS -> lower (lower g) = lower g.
Proof. intros [<- | [<- | [<- | []]]]; reflexivity. Qed.

(** X12: the command word is matched in any case.  Two messages whose
    trimmed texts differ only in the case of the letters of the command word
    are dispatched alike: same tool, same argument, same result and state
    (the spec's [/RECALL foo] against [/recall foo]). *)
Theorem try_tools_ignores_command_case (clk : clock) (m1 m2 : list N) (g r : list N)
    (w : world)
    (Hm1 : strip m1 = 47%N :: g ++ r)
    (Hm2 : strip m2 = 47%N :: lower g ++ r)
    (Hcmd : In (lower g) COMMANDS) :
  try_tools clk m1 w = try_tools clk m2 w.
Proof.
  unfold try_tools.
  rewrite (re_match_command_stripped m1 g r Hm1 Hcmd).
  rewrite (re_match_command_stripped m2 (lower g) r Hm2)
    by (now rewrite lower_command).
  destruct (has_newline (lstrip r)); [reflexivity |].
  now rewrite lower_command.
Qed.

(** X13: a command is routed with its argument trimmed.  When the trimmed
    message is a slash, a command word in any case and a rest that, once its
    leading white space is dropped, has no line feed, the matching tool runs
    on exactly that rest: [tool_calc] for calc, [tool_remember] for remember
    (the note is appended and saved), [tool_recall] for recall (the state is
    left alone). *)
Theorem try_tools_routes_argument (clk : clock) (message_text : str) (g r : list N)
    (w : world)
    (Hmsg : strip message_text = 47%N :: g ++ r)
    (Hcmd : In (lower g) COMMANDS)
    (Hline : has_newline (lstrip r) = false) :
  let arg := lstrip r in
  (lower g = lit "calc" ->
   try_tools clk message_text w
     = match tool_calc arg with
       | Ok out => (Ok (Some out), w)
       | Raise e => (Raise e, w)
       end) /\
  (lower g = lit "remember" ->
   try_tools clk message_text w
     = (Ok (Some (lit "Saved: " ++ [8220%N] ++ strip arg ++ [8221%N])),
        remembered clk arg w)) /\
  (lower g = lit "recall" ->
   try_tools clk message_text w = (Ok (Some (recall_text (notes (mem w)) arg)), w)).
Proof.
  cbv zeta. unfold try_tools.
  rewrite (re_match_command_stripped message_text g r Hmsg Hcmd), Hline.
  split; [| split]; intros ->.
  - change (str_eqb (lit "calc") (lit "calc")) with true. cbv iota.
    unfold bind, lift_outcome, ret. now destruct (tool_calc (lstrip r)).
  - change (str_eqb (lit "remember") (lit "calc")) with false.
    change (str_eqb (lit "remember") (lit "remember")) with true. cbv iota.
    unfold bind. now rewrite tool_remember_full_run.
  - reflexivity.
Qed.

(** X14: a command over several lines is no command.  If a line feed
    remains after the command word and its white space, the pattern does not
    match: the dispatcher gives the no-command result, touches nothing, and
    an admitted message is answered by the fall-through path with its own
    text. *)
Theorem try_tools_multiline_falls_through (clk : clock) (message_text : str)
    (g r : list N) (w : world)
    (Hmsg : strip message_text = 47%N :: g ++ r)
    (Hcmd : In (lower g) COMMANDS)
    (Hline : has_newline (lstrip r) = true) :
  try_tools clk message_text w = (Ok None, w) /\
  (fst (ratelimit_ok (time_time clk) (rate w)) = true ->
   fst (improve clk message_text w)
     = Ok (lit "[nanda] " ++ respond message_text ++ memory_hint (notes (mem w)))).
Proof.
  assert (Hnone : re_match_command (strip message_text) = None)
    by (now rewrite (re_match_command_stripped message_text g r Hmsg Hcmd), Hline).
  split.
  - unfold try_tools. now rewrite Hnone.
  - intros Hadmit. now apply improve_fall_through.
Qed.

Lemma starts_command_false s : starts_command s = false -> re_match_command s = None.
Proof.
  unfold starts_command, re_match_command.
  destruct s as [| c s1]; [reflexivity |].
  destruct (N.eqb_spec c 47) as [-> | Hne].
  2:{ destruct c as [| p]; [reflexivity |].
      do 6 (destruct p as [p | p |]; try reflexivity). now elim Hne. }
  cbn [existsb COMMANDS]. rewrite !orb_false_iff. intros (Hc & Hr & Hl & _).
  cbn [first_match]. now rewrite !ci_prefix_None by (assumption || (cbn; auto)).
Qed.

Lemma is_prefix_split (name : list N) s :
  In name COMMANDS -> is_prefix name (lower s) = true ->
  exists g r, s = g ++ r /\ lower g = name.
Proof.
  intros Hin Hpre.
  destruct (is_prefix_lower_split name [] s (commands_cmd_letters _ Hin) Hpre)
    as (g & r & -> & Hg & Hplain).
  exists g, r. split; [reflexivity |]. now rewrite lower_plain.
Qed.

(** X15: what is not a command falls through untouched.  A message whose
    trimmed text does not start with a slash followed, in any case, by calc,
    remember or recall gets the no-command result from the dispatcher, which
    changes nothing; once admitted it is answered by the fall-through path.
    Every other message is of the form the routing above covers. *)
Theorem try_tools_not_a_command (clk : clock) (message_text : str) (w : world) :
  (starts_command (strip message_text) = false ->
   try_tools clk message_text w = (Ok None, w) /\
   (fst (ratelimit_ok (time_time clk) (rate w)) = true ->
    fst (improve clk message_text w)
      = Ok (lit "[nanda] " ++ respond message_text ++ memory_hint (notes (mem w))))) /\
  (starts_command (strip message_text) = true ->
   exists g r, strip message_text = 47%N :: g ++ r /\ In (lower g) COMMANDS).
Proof.
  split.
  - intros Hnot. pose proof (starts_command_false _ Hnot) as Hnone. split.
    + unfold try_tools. now rewrite Hnone.
    + intros Hadmit. now apply improve_fall_through.
  - unfold starts_command. destruct (strip message_text) as [| c s1]; [discriminate |].
    destruct (N.eqb_spec c 47) as [-> | Hne].
    2:{ destruct c as [| p]; [discriminate |].
        do 6 (destruct p as [p | p |]; try discriminate). now elim Hne. }
    intros Hex. apply existsb_exists in Hex. destruct Hex as (name & Hin & Hpre).
    destruct (is_prefix_split name s1 Hin Hpre) as (g & r & -> & Hg).
    exists g, r. split; [reflexivity | now rewrite Hg].
Qed.

End Routing.

Lemma try_tools_ignores_command_case_witness :
  let m1 := lit "  /RECALL milk " in
  let m2 := lit "/recall milk" in
  strip m1 = 47%N :: lit "RECALL" ++ lit " milk" /\
  strip m2 = 47%N :: lower (lit "RECALL") ++ lit " milk" /\
  @try_tools int_interpreter plain_storage sample_clock m1 sample_world
    = @try_tools int_interpreter plain_storage sample_clock m2 sample_world.
Proof.
  intros m1 m2.
  assert (Hm1 : strip m1 = 47%N :: lit "RECALL" ++ lit " milk") by reflexivity.
  assert (Hm2 : strip m2 = 47%N :: lower (lit "RECALL") ++ lit " milk") by reflexivity.
  split; [exact Hm1 |]. split; [exact Hm2 |].
  apply (@try_tools_ignores_command_case int_interpreter plain_storage sample_clock
           m1 m2 (lit "RECALL") (lit " milk") sample_world Hm1 Hm2).
  cbn. auto.
Defined.

Lemma try_tools_routes_argument_witness :
  let msg := lit " /Calc   2*(3+4) " in
  strip msg = 47%N :: lit "Calc" ++ lit "   2*(3+4)" /\
  @try_tools int_interpreter plain_storage sample_clock msg sample_world
    = match @tool_calc int_interpreter (lit "2*(3+4)") with
      | Ok out => (Ok (Some out), sample_world)
      | Raise e => (Raise e, sample_world)
      end.
Proof.
  intros msg.
  assert (Hmsg : strip msg = 47%N :: lit "Calc" ++ lit "   2*(3+4)") by reflexivity.
  split; [exact Hmsg |].
  refine (proj1 (@try_tools_routes_argument int_interpreter plain_storage sample_clock
                   msg (lit "Calc") (lit "   2*(3+4)") sample_world Hmsg _ _) _).
  - cbn. auto.
  - reflexivity.
  - reflexivity.
Defined.

Lemma try_tools_multiline_falls_through_witness :
  let msg := lit "/calc 1+" ++ [10%N] ++ lit "2" in
  strip msg = 47%N :: lit "calc" ++ (lit " 1+" ++ [10%N] ++ lit "2") /\
  @try_tools int_interpreter plain_storage sample_clock msg sample_world
    = (Ok None, sample_world).
Proof.
  intros msg.
  assert (Hmsg : strip msg = 47%N :: lit "calc" ++ (lit " 1+" ++ [10%N] ++ lit "2"))
    by reflexivity.
  split; [exact Hmsg |].
  refine (proj1 (@try_tools_multiline_falls_through int_interpreter plain_storage
                   sample_clock msg (lit "calc") _ sample_world Hmsg _ _)).
  - cbn. auto.
  - reflexivity.
Defined.

(** ** The texts the tools and the fall-through path produce *)

Section Texts.

Context {I : Interpreter} {S : Storage}.

Lemma sanitize_sublist (expr : str) : sanitize expr `sublist_of` expr.
Proof.
  unfold sanitize. induction expr as [| c expr IH]; [constructor |].
  cbn [List.filter]. destruct (calc_allowed c); now constructor.
Qed.

Lemma sanitize_clean (expr : str) :
  forallb calc_allowed expr = true -> sanitize expr = expr.
Proof.
  unfold sanitize. induction expr as [| c expr IH]; [reflexivity |].
  cbn [forallb List.filter]. intros Hall. apply andb_true_iff in Hall.
  destruct Hall as [-> Hrest]. now rewrite IH.
Qed.

(** X16: nothing that could name anything reaches [eval].  Every character
    of the sanitised expression is the space or lies between "(" and "9"
    without being the comma; so there is no letter, underscore, quote,
    bracket, comma or character beyond ASCII in it.  The sanitised text is
    the input with characters left out, in the same order, and an input made
    of allowed characters only is passed on unchanged. *)
Theorem sanitize_blocks_names (expr : str) :
  (forall c, In c (sanitize expr) ->
     (c = 32 \/ (40 <= c <= 57 /\ c <> 44))%N /\
     ~ (65 <= c <= 90)%N /\ ~ (97 <= c <= 122)%N /\ c <> 95%N /\
     c <> 34%N /\ c <> 39%N /\ (c < 128)%N) /\
  sanitize expr `sublist_of` expr /\
  (length (sanitize expr) <= length expr)%nat /\
  (forallb calc_allowed expr = true -> sanitize expr = expr).
Proof.
  split.
  { intros c Hin. apply sanitize_In in Hin. destruct Hin as [_ Hc].
    unfold calc_allowed, is_digit in Hc. cbn [existsb] in Hc.
    rewrite !orb_true_iff, andb_true_iff, !N.leb_le, !N.eqb_eq in Hc.
    lia. }
  split; [apply sanitize_sublist |].
  split; [apply sublist_length, sanitize_sublist | apply sanitize_clean].
Qed.

Lemma lex_spaces (n : nat) : lex (repeat 32%N n) [] = Some (inr []).
Proof. induction n as [| n IH]; [reflexivity |]. cbn [repeat lex is_digit]. exact IH. Qed.

Lemma sanitize_only_spaces (expr : str) :
  (forall c, In c expr -> calc_allowed c = true -> c = 32%N) ->
  sanitize expr = repeat 32%N (length (sanitize expr)).
Proof.
  intros Hjunk. unfold sanitize. induction expr as [| c expr IH]; [reflexivity |].
  cbn [List.filter]. destruct (calc_allowed c) eqn:Hc.
  - rewrite (Hjunk c (or_introl eq_refl) Hc) in *. cbn [length repeat]. f_equal.
    apply IH. intros d Hd. apply Hjunk. now right.
  - apply IH. intros d Hd. apply Hjunk. now right.
Qed.

(** X17: text without arithmetic gives a calculator error.  If the
    expression has no digit and none of the signs + - * / ( ) . (words, for
    instance, or nothing at all), what is left for the evaluator is empty or
    blank, and the answer is a "Calc error: " string; stated for what stays
    within the length the reference semantics covers. *)
Theorem tool_calc_rejects_plain_text (expr : str)
    (Hint : computes_int_arith I)
    (Hjunk : forall c, In c expr -> calc_allowed c = true -> c = 32%N)
    (Hshort : (length (sanitize expr) <= MAX_COVERED_LENGTH)%nat) :
  exists msg, tool_calc expr = Ok (lit "Calc error: " ++ msg).
Proof.
  apply (tool_calc_arith_error expr Malformed Hint).
  unfold int_arith.
  destruct (Nat.ltb_spec MAX_COVERED_LENGTH (length (sanitize expr))); [lia |].
  rewrite (sanitize_only_spaces expr Hjunk), lex_spaces. reflexivity.
Qed.

Lemma replace_from_absent (old new : list N) (s : list N) :
  contains old s = false -> replace_from old new 0 s = s.
Proof.
  induction s as [| c s IH]; [reflexivity |].
  cbn [contains replace_from]. intros Hno. apply orb_false_iff in Hno.
  destruct Hno as [Hpre Hrest]. cbn [is_prefix] in *. rewrite Hpre. f_equal. now apply IH.
Qed.

(** X18: a message with none of the trigger words is echoed as it is.  If
    "ignore previous" does not occur in the message (case ignored) and
    neither "hello", "Hello" nor "goodbye" occurs in it, the reply on the
    fall-through path is the tag, the message itself, character for
    character, and the memory hint. *)
Theorem compose_echoes_plain_message (message_text : str) (w : world)
    (Hguard : contains (lit "ignore previous") (lower message_text) = false)
    (Hhello : contains (lit "hello") message_text = false)
    (HHello : contains (lit "Hello") message_text = false)
    (Hbye : contains (lit "goodbye") message_text = false) :
  respond message_text = message_text /\
  fst (compose message_text w)
    = Ok (lit "[nanda] " ++ message_text ++ memory_hint (notes (mem w))).
Proof.
  assert (Hresp : respond message_text = message_text).
  { unfold respond, replace. rewrite Hguard.
    rewrite (replace_from_absent _ _ _ Hhello).
    rewrite (replace_from_absent _ _ _ HHello).
    now rewrite (replace_from_absent _ _ _ Hbye). }
  split; [exact Hresp |]. now rewrite compose_run, Hresp.
Qed.

Lemma filter_sublist {A} (f : A -> bool) (l : list A) : List.filter f l `sublist_of` l.
Proof.
  induction l as [| x l IH]; [constructor |].
  cbn [List.filter]. destruct (f x); now constructor.
Qed.

(** X19: a recall with a query shows the newest matches only.  When the
    query, trimmed and lower-cased, is not empty, the notes listed are
    exactly the last five (or fewer) of those whose lower-cased text
    contains it, in the order of the store, one line for each (a dash, the
    text and the time stamp in brackets after an at sign); every listed note
    matches; and the answer is "No memory found." exactly when no note
    matches. *)
Theorem tool_recall_filters (query : str) (w : world)
    (Hquery : lower (strip query) <> []) :
  let q := lower (strip query) in
  let hits := List.filter (fun n => contains q (lower (text n))) (notes (mem w)) in
  let shown := last_n 5 hits in
  let line := fun n : note => lit "- " ++ text n ++ lit " (@" ++ ts n ++ lit ")" in
  tool_recall query w
    = (Ok (match hits with
           | [] => lit "No memory found."
           | _ => lit "Recent memory:" ++ [10%N]
                  ++ join [10%N] (List.map line shown)
           end), w) /\
  Forall (fun n => contains q (lower (text n)) = true) shown /\
  shown `sublist_of` notes (mem w) /\
  (length shown <= 5)%nat /\
  (exists older, hits = older ++ shown) /\
  (hits = [] <-> forall n, In n (notes (mem w)) -> contains q (lower (text n)) = false).
Proof.
  cbv zeta. rewrite tool_recall_run.
  set (q := lower (strip query)) in *.
  set (hits := List.filter (fun n => contains q (lower (text n))) (notes (mem w))).
  split.
  { unfold recall_text. fold q. destruct q; [now elim Hquery |]. reflexivity. }
  destruct (last_n_suffix 5 hits) as [older Holder].
  split.
  { apply Stdlib.Lists.List.Forall_forall. intros n Hn.
    assert (Hin : In n hits) by (rewrite Holder; apply in_or_app; now right).
    apply filter_In in Hin. apply Hin. }
  split.
  { transitivity hits; [| apply filter_sublist].
    unfold last_n. apply sublist_drop. }
  split; [rewrite last_n_length; lia |].
  split; [now exists older |].
  split.
  - intros Hnil n Hn. destruct (contains q (lower (text n))) eqn:Hc; [| reflexivity].
    assert (Hin : In n hits) by (apply filter_In; auto).
    rewrite Hnil in Hin. destruct Hin.
  - intros Hnone. destruct hits as [| n hits'] eqn:Hh; [reflexivity |].
    assert (Hin : In n (List.filter (fun n => contains q (lower (text n)))
                          (notes (mem w))))
      by (fold hits; rewrite Hh; now left).
    apply filter_In in Hin. destruct Hin as [Hn Hc].
    rewrite (Hnone n Hn) in Hc. discriminate.
Qed.

Lemma last_n_two {A} (older : list A) (a b : A) :
  last_n 2 (older ++ [a; b]) = [a; b].
Proof.
  unfold last_n. rewrite List.length_app. cbn [length].
  replace (length older + 2 - 2)%nat with (length older + 0)%nat by lia.
  rewrite List.skipn_app, Nat.add_0_r, List.skipn_all.
  now replace (length older - length older)%nat with 0%nat by lia.
Qed.

(** X20: the memory hint names the two newest notes, the newest last.  With
    at least two notes stored, the reply on the fall-through path ends in
    the parenthesis " (FYI I remember: a, b)" for the last two note texts
    [a] and [b]; with one note it names that one; with none there is no
    hint. *)
Theorem compose_hint_names_newest_notes (message_text : str) (w : world) :
  (notes (mem w) = [] ->
   fst (compose message_text w) = Ok (lit "[nanda] " ++ respond message_text)) /\
  (forall n, notes (mem w) = [n] ->
   fst (compose message_text w)
     = Ok (lit "[nanda] " ++ respond message_text
           ++ lit " (FYI I remember: " ++ text n ++ lit ")")) /\
  (forall older a b, notes (mem w) = older ++ [a; b] ->
   fst (compose message_text w)
     = Ok (lit "[nanda] " ++ respond message_text
           ++ lit " (FYI I remember: " ++ text a ++ lit ", " ++ text b ++ lit ")")).
Proof.
  rewrite compose_run. split; [| split].
  - intros ->. cbn [memory_hint]. now rewrite app_nil_r.
  - intros n ->. reflexivity.
  - intros older a b ->. unfold memory_hint. rewrite last_n_two.
    destruct (older ++ [a; b]) eqn:Hne; [now destruct older |].
    cbn [List.map join]. now rewrite <- !app_assoc.
Qed.

End Texts.

Lemma tool_calc_rejects_plain_text_witness :
  computes_int_arith int_interpreter /\
  exists msg, @tool_calc int_interpreter (lit "import os") = Ok (lit "Calc error: " ++ msg).
Proof.
  split; [exact int_interpreter_computes |].
  apply (@tool_calc_rejects_plain_text int_interpreter (lit "import os")
           int_interpreter_computes).
  - intros c Hin Hc. cbn in Hin.
    repeat (destruct Hin as [<- | Hin]; [try discriminate Hc; reflexivity |]).
    destruct Hin.
  - vm_compute. lia.
Defined.

Lemma compose_echoes_plain_message_witness :
  let msg := lit "how are you?" in
  contains (lit "ignore previous") (lower msg) = false /\
  fst (@compose plain_storage msg fresh_world) = Ok (lit "[nanda] how are you?").
Proof.
  intros msg.
  assert (Hguard : contains (lit "ignore previous") (lower msg) = false) by reflexivity.
  split; [exact Hguard |].
  rewrite (proj2 (@compose_echoes_plain_message plain_storage msg fresh_world Hguard
                    eq_refl eq_refl eq_refl)).
  reflexivity.
Defined.

Lemma tool_recall_filters_witness :
  let moloko := [1052; 1054; 1051; 1054; 1050; 1054]%N in
  let query := [32; 1084; 1086; 1083; 1086; 1082; 1086]%N in
  let w := put_mem {| notes := [sample_note "buy milk";
                                {| text := moloko; ts := lit "2024-10-27T03:33:20Z" |}];
                      metrics := metrics sample_doc |} sample_world in
  lower (strip query) <> [] /\
  tool_recall query w
    = (Ok (lit "Recent memory:" ++ [10%N] ++ lit "- " ++ moloko
           ++ lit " (@2024-10-27T03:33:20Z)"), w).
Proof.
  intros moloko query w.
  assert (Hquery : lower (strip query) <> []) by (vm_compute; discriminate).
  split; [exact Hquery |].
  rewrite (proj1 (tool_recall_filters query w Hquery)).
  vm_compute. reflexivity.
Defined.

(** ** Starting up *)

Section Start.

Context {I : Interpreter} {S : Storage}.

(** X21: the limiter does not outlive the process.  Whatever the store
    file holds and whatever the clock reads, at the start and at the first
    message, the limiter starts with nothing counted, the first message
    after a start is admitted, and after it the limiter has counted one
    message in the minute of that message. *)
Theorem improve_first_message_after_start (now : Q) (fs : gmap (list N) (list N))
    (clk : clock) (message_text : str) :
  let w := startup now fs in
  let w' := snd (improve clk message_text w) in
  rate w = {| _last_bucket := bucket_of now; _msgs_in_bucket := 0 |} /\
  fst (ratelimit_ok (time_time clk) (rate w)) = true /\
  rate w' = {| _last_bucket := bucket_of (time_time clk); _msgs_in_bucket := 1 |}.
Proof.
  cbv zeta. split; [reflexivity |].
  rewrite improve_rate. cbn [startup rate].
  destruct (Z.eq_dec (bucket_of (time_time clk)) (_last_bucket (rate_init now)))
    as [Hb | Hb].
  - rewrite ratelimit_ok_admit;
      [| exact Hb | cbn; unfold RATE_LIMIT_PER_MIN; lia].
    split; [reflexivity |]. cbn [snd]. rewrite <- Hb. reflexivity.
  - rewrite ratelimit_ok_new_bucket by exact Hb. split; reflexivity.
Qed.

End Start.
